(** * github-mcp-server: request validation and upstream-error translation

    A shallow embedding of [src/server.js]: the two Joi schemas, the three
    route handlers under [/api/github], and the start-up credential check.

    The server is a thin composition of library calls, so the embedding has
    three layers:
    - [Json]: the values that [express.json()] hands to the handlers and that
      [res.json] writes back, with JavaScript property access on them;
    - [Joi]: the validation algorithm of the [joi] package for the three
      schema types the source uses, under the preferences in force when
      [schema.validate(value)] is called with no options ([abortEarly],
      [convert], unknown keys forbidden);
    - [Server] and [Startup]: the code of [server.js] itself.

    A handler is modelled from the point where Express calls it: the
    middleware in front of the routes (helmet, cors, the rate limiter, the
    body parser) and the log files are not part of the model, except for the
    log lines of the start-up check. *)

From Stdlib Require Import List String Ascii ZArith Bool Lia.
From Stdlib Require Import DecimalString.
Import ListNotations.
Local Open Scope string_scope.
Set Warnings "-register-all".

(** ** JSON values and JavaScript property access *)
Module Json.

(** A parsed JSON document.  Numbers are carried opaquely: no handler
    computes with a number of a body, the only number ever compared is the
    upstream HTTP status.  [JObj kvs] lists the own properties in the order
    [Object.keys] enumerates them; the keys are ordinary property names (the
    name [__proto__], which assignment treats specially, is outside the
    model). *)
Inductive json : Type :=
| JNull
| JBool (b : bool)
| JNum (n : Z)
| JStr (s : string)
| JArr (items : list json)
| JObj (kvs : list (string * json)).

(** A JavaScript value read from a JSON document: [None] is [undefined]. *)
Definition jsval : Type := option json.

(** [o[k]] on the own properties of an object. *)
Fixpoint lookup (k : string) (kvs : list (string * json)) : jsval :=
  match kvs with
  | [] => None
  | (k', v) :: rest => if String.eqb k' k then Some v else lookup k rest
  end.

(** [o[k] = v]: an existing property keeps its place, a new one goes last. *)
Fixpoint set_prop (k : string) (v : json) (kvs : list (string * json))
  : list (string * json) :=
  match kvs with
  | [] => [(k, v)]
  | (k', v') :: rest =>
      if String.eqb k' k then (k', v) :: rest
      else (k', v') :: set_prop k v rest
  end.

(** [delete o[k]]. *)
Fixpoint delete_prop (k : string) (kvs : list (string * json))
  : list (string * json) :=
  match kvs with
  | [] => []
  | (k', v') :: rest =>
      if String.eqb k' k then rest else (k', v') :: delete_prop k rest
  end.

(** [Object.keys(o)]. *)
Definition keys (kvs : list (string * json)) : list string := map fst kvs.

Definition mem (k : string) (ks : list string) : bool :=
  existsb (String.eqb k) ks.

(** What a [try] block can catch in the handlers: the rejection of an axios
    call (the error carries [response] when upstream answered with a status
    outside 2xx, and no [response] when nothing was received), or a
    [TypeError] raised by the handler's own code. *)
Inductive exn : Type :=
| AxiosError (response : option (Z * json))
| TypeError.

Inductive completion (A : Type) : Type :=
| Normal (a : A)
| Throw (e : exn).
Arguments Normal {A} a.
Arguments Throw {A} e.

Definition bind {A B} (c : completion A) (k : A -> completion B)
  : completion B :=
  match c with
  | Normal a => k a
  | Throw e => Throw e
  end.

(** [v.k] for the property names the handlers read ([id], [name],
    [message], ...): none of them lives on a prototype, so the access
    yields the own property of an object, [undefined] on any other
    non-null value, and throws on [null]. *)
Definition get (v : json) (k : string) : completion jsval :=
  match v with
  | JNull => Throw TypeError
  | JObj kvs => Normal (lookup k kvs)
  | _ => Normal None
  end.

(** An object literal whose property values may be [undefined]. *)
Definition literal : Type := list (string * jsval).

(** [JSON.stringify] of an object literal, as [res.json] applies it:
    a property whose value is [undefined] is left out. *)
Fixpoint stringify (o : literal) : list (string * json) :=
  match o with
  | [] => []
  | (k, Some v) :: rest => (k, v) :: stringify rest
  | (_, None) :: rest => stringify rest
  end.

End Json.
Export Json.

Notation "x <- c ;; k" := (bind c (fun x => k))
  (at level 61, c at next level, right associativity).

(** ** The Joi validation algorithm *)
Module Joi.

Inductive presence : Type := Optional | Required.

(** The two string rules of the source.  A limit is compared with the
    [length] of the string; the characters of a [string] stand for the code
    units that [length] counts. *)
Inductive rule : Type :=
| Min (limit : nat)
| Max (limit : nat).

Inductive schema : Type :=
| String_ (p : presence) (rules : list rule)
| Boolean_ (p : presence) (dflt : option bool)
| Object_ (p : presence) (children : list (string * schema)).

(** Error codes of Joi, with the path of the offending value. *)
Inductive code : Type :=
| any_required
| object_base
| object_unknown
| string_base
| string_empty
| string_min (limit : nat)
| string_max (limit : nat)
| boolean_base.

Record error : Type := { err_code : code; err_path : list string }.

(** The pair [{ error, value }] returned by [schema.validate]. *)
Inductive result : Type :=
| Valid (value : jsval)
| Invalid (e : error).

(** *** Messages *)

Definition dquote : string := String (ascii_of_nat 34) EmptyString.

(** The label of an error is its path joined by dots, and [value] at the
    root. *)
Definition label (path : list string) : string :=
  match path with
  | [] => "value"
  | k :: rest => fold_left (fun acc s => acc ++ "." ++ s) rest k
  end.

Definition decimal (n : nat) : string :=
  NilEmpty.string_of_uint (Nat.to_uint n).

Definition template (c : code) : string :=
  match c with
  | any_required => " is required"
  | object_base => " must be of type object"
  | object_unknown => " is not allowed"
  | string_base => " must be a string"
  | string_empty => " is not allowed to be empty"
  | string_min n =>
      " length must be at least " ++ decimal n ++ " characters long"
  | string_max n =>
      " length must be less than or equal to " ++ decimal n
        ++ " characters long"
  | boolean_base => " must be a boolean"
  end.

(** [error.details[0].message] *)
Definition message (e : error) : string :=
  dquote ++ label (err_path e) ++ dquote ++ template (err_code e).

(** *** Validation *)

(** [toLowerCase], on the letters that matter for the comparison with
    [true] and [false]: no character outside A-Z lower-cases to one of
    their letters. *)
Definition lower (c : ascii) : ascii :=
  let n := nat_of_ascii c in
  if andb (Nat.leb 65 n) (Nat.leb n 90) then ascii_of_nat (n + 32) else c.

Fixpoint toLowerCase (s : string) : string :=
  match s with
  | EmptyString => EmptyString
  | String c rest => String (lower c) (toLowerCase rest)
  end.

(** The coercion of the boolean type (preference [convert]): a string that
    spells [true] or [false] in any letter case becomes that boolean. *)
Definition coerce_boolean (v : jsval) : jsval :=
  match v with
  | Some (JStr s) =>
      let normalized := toLowerCase s in
      if String.eqb normalized "true" then Some (JBool true)
      else if String.eqb normalized "false" then Some (JBool false)
      else v
  | _ => v
  end.

(** An [undefined] value: an error when the key is required, otherwise the
    default, if any. *)
Definition absent (p : presence) (path : list string) (dflt : jsval)
  : result :=
  match p with
  | Required => Invalid {| err_code := any_required; err_path := path |}
  | Optional => Valid dflt
  end.

Definition is_min0 (r : rule) : bool :=
  match r with
  | Min 0 => true
  | _ => false
  end.

(** The rules of a string, in the order they were added. *)
Fixpoint run_rules (rules : list rule) (path : list string) (s : string)
  : result :=
  match rules with
  | [] => Valid (Some (JStr s))
  | Min n :: rest =>
      if Nat.leb n (String.length s) then run_rules rest path s
      else Invalid {| err_code := string_min n; err_path := path |}
  | Max n :: rest =>
      if Nat.leb (String.length s) n then run_rules rest path s
      else Invalid {| err_code := string_max n; err_path := path |}
  end.

Definition is_empty (s : string) : bool :=
  match s with
  | EmptyString => true
  | _ => false
  end.

(** The keys of the value that the schema does not declare. *)
Definition unprocessed (declared : list string) (kvs : list (string * json))
  : list string :=
  filter (fun k => negb (mem k declared)) (keys kvs).

(** The end of an object's validation: a key of the value that no child
    consumed is an error, otherwise the copy is the result. *)
Definition leftover (declared : list string) (path : list string)
                    (kvs value : list (string * json)) : result :=
  match unprocessed declared kvs with
  | [] => Valid (Some (JObj value))
  | k :: _ =>
      Invalid {| err_code := object_unknown; err_path := path ++ [k] |}
  end.

Section Children.
Variable validate_child : string -> schema -> jsval -> result.
Variable finish : list (string * json) -> result.

(** The loop over the declared children of an object, on the copy
    [value]: the item is read from the copy, an error ends the loop, a
    result is stored under the key, and an [undefined] result removes
    the key. *)
Fixpoint each (cs : list (string * schema))
              (value : list (string * json)) : result :=
  match cs with
  | [] => finish value
  | (key, child) :: rest =>
      let item := lookup key value in
      match validate_child key child item with
      | Invalid e => Invalid e
      | Valid None =>
          each rest
            match item with
            | Some _ => delete_prop key value
            | None => value
            end
      | Valid (Some r) => each rest (set_prop key r value)
      end
  end.
End Children.

(** Validation of [v] found at [path]: coercion, presence, base type, then
    rules; the first error ends the validation. *)
Fixpoint validate_at (s : schema) (path : list string) (v : jsval)
  {struct s} : result :=
  match s with
  | String_ p rules =>
      match v with
      | None => absent p path None
      | Some (JStr str) =>
          if andb (is_empty str) (negb (existsb is_min0 rules))
          then Invalid {| err_code := string_empty; err_path := path |}
          else run_rules rules path str
      | Some _ => Invalid {| err_code := string_base; err_path := path |}
      end
  | Boolean_ p dflt =>
      match coerce_boolean v with
      | None => absent p path (option_map JBool dflt)
      | Some (JBool b) => Valid (Some (JBool b))
      | Some _ => Invalid {| err_code := boolean_base; err_path := path |}
      end
  | Object_ p children =>
      match v with
      | None => absent p path None
      | Some (JObj kvs) =>
          each
            (fun key child item => validate_at child (path ++ [key]) item)
            (leftover (map fst children) path kvs)
            children kvs
      | Some _ => Invalid {| err_code := object_base; err_path := path |}
      end
  end.

(** [schema.validate(value)] *)
Definition validate (s : schema) (value : json) : result :=
  validate_at s [] (Some value).

(** *** The fluent builders used by the source *)

Definition same_rule (a b : rule) : bool :=
  match a, b with
  | Min _, Min _ => true
  | Max _, Max _ => true
  | _, _ => false
  end.

(** A rule added twice replaces the earlier one. *)
Definition add_rule (r : rule) (s : schema) : schema :=
  match s with
  | String_ p rules =>
      String_ p (filter (fun r' => negb (same_rule r r')) rules ++ [r])
  | _ => s
  end.

Definition required (s : schema) : schema :=
  match s with
  | String_ _ rules => String_ Required rules
  | Boolean_ _ d => Boolean_ Required d
  | Object_ _ cs => Object_ Required cs
  end.

Definition min (limit : nat) : schema -> schema := add_rule (Min limit).
Definition max (limit : nat) : schema -> schema := add_rule (Max limit).

Definition default (b : bool) (s : schema) : schema :=
  match s with
  | Boolean_ p _ => Boolean_ p (Some b)
  | _ => s
  end.

Definition boolean : schema := Boolean_ Optional None.
Definition object (children : list (string * schema)) : schema :=
  Object_ Optional children.
Definition string : schema := String_ Optional [].

End Joi.

(** Method chaining: [s .> f] is [s.f()]. *)
Notation "s .> f" := (f s) (at level 40, left associativity, only parsing).

(** ** The server *)
Module Server.

(** *** Request validation schemas *)

Definition webhookSchema : Joi.schema :=
  Joi.object
    [ ("repository",
        Joi.object
          [ ("name", Joi.string .> Joi.required);
            ("owner",
              Joi.object [ ("login", Joi.string .> Joi.required) ]
                .> Joi.required) ]
          .> Joi.required);
      ("action", Joi.string .> Joi.required) ].

Definition createRepoSchema : Joi.schema :=
  Joi.object
    [ ("name", Joi.string .> Joi.required .> Joi.min 1 .> Joi.max 100);
      ("description", Joi.string .> Joi.max 1000);
      ("private", Joi.boolean .> Joi.default false);
      ("auto_init", Joi.boolean .> Joi.default true) ].

(** *** Responses and upstream calls *)

Record response : Type := { status : Z; body : json }.

(** What a handler leaves behind: a response, or nothing when its promise
    rejects before [res.json] is reached. *)
Inductive outcome : Type :=
| Responded (r : response)
| Unhandled.

(** [res.status(st).json(o)] *)
Definition res_json (st : Z) (o : literal) : response :=
  {| status := st; body := JObj (stringify o) |}.

(** The calls made on [githubClient]. *)
Inductive call : Type :=
| GetUser
| GetUserRepos
| PostUserRepos (payload : jsval).

(** How an axios call settles: [response.data] of a 2xx answer, or a
    rejection with or without [error.response]. *)
Inductive axios_result : Type :=
| Resolved (data : json)
| Rejected (response : option (Z * json)).

Definition await (r : axios_result) : completion json :=
  match r with
  | Resolved data => Normal data
  | Rejected response => Throw (AxiosError response)
  end.

(** [error.response] on a caught error. *)
Definition error_response (error : exn) : option (Z * json) :=
  match error with
  | AxiosError response => response
  | TypeError => None
  end.

(** [try { ... } catch (error) { ... }] in an async handler. *)
Definition try_catch (block : completion response)
                     (handler : exn -> completion response) : outcome :=
  match block with
  | Normal r => Responded r
  | Throw error =>
      match handler error with
      | Normal r => Responded r
      | Throw _ => Unhandled
      end
  end.

Record run : Type := { calls : list call; result : outcome }.

(** *** GET /api/github/repos *)

Definition toSummary (repo : json) : completion literal :=
  id <- get repo "id";;
  name <- get repo "name";;
  full_name <- get repo "full_name";;
  description <- get repo "description";;
  private <- get repo "private";;
  html_url <- get repo "html_url";;
  default_branch <- get repo "default_branch";;
  updated_at <- get repo "updated_at";;
  visibility <- get repo "visibility";;
  language <- get repo "language";;
  stargazers_count <- get repo "stargazers_count";;
  Normal
    [ ("id", id);
      ("name", name);
      ("full_name", full_name);
      ("description", description);
      ("private", private);
      ("html_url", html_url);
      ("default_branch", default_branch);
      ("updated_at", updated_at);
      ("visibility", visibility);
      ("language", language);
      ("stargazers_count", stargazers_count) ].

Fixpoint map_items {A} (f : json -> completion A) (items : list json)
  : completion (list A) :=
  match items with
  | [] => Normal []
  | x :: rest =>
      y <- f x;;
      ys <- map_items f rest;;
      Normal (y :: ys)
  end.

(** [data.map(f)]: only an array has [map]. *)
Definition array_map {A} (f : json -> completion A) (data : json)
  : completion (list A) :=
  match data with
  | JArr items => map_items f items
  | _ => Throw TypeError
  end.

Definition list_catch (error : exn) : completion response :=
  match error_response error with
  | Some (st, data) =>
      if (st =? 401)%Z then
        Normal (res_json 401
          [ ("error", Some (JStr "Authentication failed"));
            ("message", Some (JStr "Invalid or expired GitHub token")) ])
      else if (st =? 403)%Z then
        Normal (res_json 403
          [ ("error", Some (JStr "Permission denied"));
            ("message",
              Some (JStr "Token does not have required permissions")) ])
      else
        message <- get data "message";;
        Normal (res_json st
          [ ("error", Some (JStr "GitHub API error"));
            ("message", message) ])
  | None =>
      Normal (res_json 500
        [ ("error", Some (JStr "Internal server error"));
          ("message", Some (JStr "Failed to fetch repositories")) ])
  end.

Definition list_repos (upstream : axios_result) : run :=
  {| calls := [GetUserRepos];
     result :=
       try_catch
         (data <- await upstream;;
          repos <- array_map toSummary data;;
          Normal {| status := 200;
                    body := JArr (map (fun o => JObj (stringify o)) repos) |})
         list_catch |}.

(** *** POST /api/github/repos *)

Definition toCreated (data : json) : completion literal :=
  id <- get data "id";;
  name <- get data "name";;
  full_name <- get data "full_name";;
  description <- get data "description";;
  private <- get data "private";;
  html_url <- get data "html_url";;
  default_branch <- get data "default_branch";;
  created_at <- get data "created_at";;
  visibility <- get data "visibility";;
  Normal
    [ ("id", id);
      ("name", name);
      ("full_name", full_name);
      ("description", description);
      ("private", private);
      ("html_url", html_url);
      ("default_branch", default_branch);
      ("created_at", created_at);
      ("visibility", visibility) ].

Definition create_catch (error : exn) : completion response :=
  match error_response error with
  | Some (st, data) =>
      if (st =? 401)%Z then
        Normal (res_json 401
          [ ("error", Some (JStr "Authentication failed"));
            ("message", Some (JStr "Invalid or expired GitHub token")) ])
      else if (st =? 422)%Z then
        message <- get data "message";;
        Normal (res_json 422
          [ ("error", Some (JStr "Validation failed"));
            ("message", message) ])
      else
        message <- get data "message";;
        Normal (res_json st
          [ ("error", Some (JStr "GitHub API error"));
            ("message", message) ])
  | None =>
      Normal (res_json 500
        [ ("error", Some (JStr "Internal server error"));
          ("message", Some (JStr "Failed to create repository")) ])
  end.

(** [upstream] tells how the POST to [/user/repos] settles for a payload. *)
Definition create_repo (upstream : jsval -> axios_result) (body : json)
  : run :=
  match Joi.validate createRepoSchema body with
  | Joi.Invalid error =>
      {| calls := [];
         result :=
           Responded
             (res_json 400 [ ("error", Some (JStr (Joi.message error))) ]) |}
  | Joi.Valid value =>
      {| calls := [PostUserRepos value];
         result :=
           try_catch
             (data <- await (upstream value);;
              repo <- toCreated data;;
              Normal (res_json 201 repo))
             create_catch |}
  end.

(** *** POST /api/github/webhook *)

Definition webhook (body : json) : run :=
  match Joi.validate webhookSchema body with
  | Joi.Invalid error =>
      {| calls := [];
         result :=
           Responded
             (res_json 400 [ ("error", Some (JStr (Joi.message error))) ]) |}
  | Joi.Valid _ =>
      {| calls := [];
         result :=
           Responded
             (res_json 200 [ ("message", Some (JStr "Webhook received")) ]) |}
  end.

End Server.

(** ** Start-up *)
Module Startup.
Import Server.

Inductive log_entry : Type :=
| Info (msg : string)
| Error (msg : string).

(** The process as the event loop sees it: the calls issued upstream,
    whether [validateGitHubToken] is still suspended on its [await],
    whether the server listens, the exit code once [process.exit] has been
    called, the number of inbound requests accepted so far, and the log. *)
Record process : Type :=
  { issued : list call;
    pending : bool;
    listening : bool;
    exited : option Z;
    accepted : nat;
    log : list log_entry }.

(** The module body, which runs to completion before any callback:
    [validateGitHubToken()] runs up to its [await] and returns a promise
    nobody waits for, then [app.listen(PORT)] is called. *)
Definition main : process :=
  {| issued := [GetUser];
     pending := true;
     listening := true;
     exited := None;
     accepted := 0;
     log := [] |}.

(** What the event loop delivers afterwards: an inbound request, or the
    settlement of the call to [/user]. *)
Inductive event : Type :=
| Request
| Settled (r : axios_result).

(** [validateGitHubToken] from its [await] on, given how the call to
    [/user] settled. *)
Definition validateGitHubToken (r : axios_result) (p : process) : process :=
  match r with
  | Resolved _ =>
      {| issued := issued p; pending := false; listening := listening p;
         exited := exited p; accepted := accepted p;
         log := (log p ++ [Info "GitHub token validated successfully"])%list |}
  | Rejected response =>
      let failed := (log p ++ [Error "GitHub token validation failed:"])%list in
      match response with
      | Some (st, _) =>
          if (st =? 401)%Z then
            {| issued := issued p; pending := false; listening := false;
               exited := Some 1%Z; accepted := accepted p;
               log := (failed ++
                 [Error "Invalid or expired GitHub token. Please check your token in .env file"])%list |}
          else
            {| issued := issued p; pending := false;
               listening := listening p; exited := exited p;
               accepted := accepted p; log := failed |}
      | None =>
          {| issued := issued p; pending := false;
             listening := listening p; exited := exited p;
             accepted := accepted p; log := failed |}
      end
  end.

Definition step (p : process) (e : event) : process :=
  match exited p with
  | Some _ => p
  | None =>
      match e with
      | Request =>
          if listening p then
            {| issued := issued p; pending := pending p;
               listening := listening p; exited := exited p;
               accepted := S (accepted p); log := log p |}
          else p
      | Settled r => if pending p then validateGitHubToken r p else p
      end
  end.

Definition run_events (events : list event) : process :=
  fold_left step events main.

Definition is_request (e : event) : bool :=
  match e with
  | Request => true
  | Settled _ => false
  end.

Definition requests (events : list event) : nat :=
  List.length (filter is_request events).

End Startup.

(** * Vocabulary of the statements *)

Import Server.
Import Startup.

(** What a string schema accepts. *)
Definition rule_ok (s : string) (r : Joi.rule) : bool :=
  match r with
  | Joi.Min n => Nat.leb n (String.length s)
  | Joi.Max n => Nat.leb (String.length s) n
  end.

(** A string passes a string schema when it is not empty (unless [min(0)]
    is among the rules) and satisfies every rule. *)
Definition accepts (rules : list Joi.rule) (s : string) : bool :=
  negb (Joi.is_empty s && negb (existsb Joi.is_min0 rules))
  && forallb (rule_ok s) rules.

(** The boolean a boolean schema reads from an item, if any. *)
Definition as_boolean (v : jsval) : option bool :=
  match Joi.coerce_boolean v with
  | Some (JBool b) => Some b
  | _ => None
  end.

(** The keys that [createRepoSchema] declares. *)
Definition create_keys : list string :=
  ["name"; "description"; "private"; "auto_init"].

(** The boolean that [private] or [auto_init] is normalised to: the default
    when the field is absent, otherwise what the item reads as. *)
Definition field_boolean (dflt : bool) (item : jsval) : option bool :=
  match item with
  | None => Some dflt
  | Some _ => as_boolean item
  end.

(** [description] is optional; when present it is a non-empty string of at
    most 1000 characters. *)
Definition description_ok (item : jsval) : Prop :=
  match item with
  | None => True
  | Some (JStr d) => accepts [Joi.Max 1000] d = true
  | Some _ => False
  end.

(** How a boolean field of the body appears in the normalized value: the
    default [dflt] when it is absent, itself when it is a boolean, the
    boolean it spells when it is a string; nothing else is admitted. *)
Definition normalized (dflt : bool) (supplied result : jsval) : Prop :=
  match supplied with
  | None => result = Some (JBool dflt)
  | Some (JBool b) => result = Some (JBool b)
  | Some (JStr s) =>
      exists b : bool,
        Joi.toLowerCase s = (if b then "true" else "false") /\
        result = Some (JBool b)
  | Some _ => False
  end.

(** The keys an object schema declares. *)
Definition declared (s : Joi.schema) : list string :=
  match s with
  | Joi.Object_ _ children => map fst children
  | _ => []
  end.

(** A schema is stable when a valid item is returned as it is. *)
Definition stable (s : Joi.schema) : Prop :=
  forall path item r, Joi.validate_at s path item = Joi.Valid r -> r = item.

(** The two nested objects of [webhookSchema]. *)
Definition ownerSchema : Joi.schema :=
  Joi.Object_ Joi.Required [ ("login", Joi.String_ Joi.Required []) ].

Definition repositorySchema : Joi.schema :=
  Joi.Object_ Joi.Required
    [ ("name", Joi.String_ Joi.Required []); ("owner", ownerSchema) ].

(** A webhook body that validates: the three required strings, not empty,
    and no key beyond the declared ones at each of the three levels. *)
Definition webhook_ok (kvs : list (string * json)) : Prop :=
  exists rkvs okvs name login action,
    lookup "repository" kvs = Some (JObj rkvs) /\
    lookup "name" rkvs = Some (JStr name) /\ name <> EmptyString /\
    lookup "owner" rkvs = Some (JObj okvs) /\
    lookup "login" okvs = Some (JStr login) /\ login <> EmptyString /\
    lookup "action" kvs = Some (JStr action) /\ action <> EmptyString /\
    Joi.unprocessed ["repository"; "action"] kvs = [] /\
    Joi.unprocessed ["name"; "owner"] rkvs = [] /\
    Joi.unprocessed ["login"] okvs = [].

(** Whether [body] is an object with the own property [k]. *)
Definition has_prop (k : string) (body : json) : bool :=
  match body with
  | JObj kvs => match lookup k kvs with Some _ => true | None => false end
  | _ => false
  end.

(** The fields of the list view, in the order of the object literal. *)
Definition summary_fields : list string :=
  [ "id"; "name"; "full_name"; "description"; "private"; "html_url";
    "default_branch"; "updated_at"; "visibility"; "language";
    "stargazers_count" ].

(** The fields of [kvs] named in [fields], in the order of [fields]. *)
Definition project (fields : list string) (kvs : list (string * json))
  : list (string * json) :=
  stringify (map (fun k => (k, lookup k kvs)) fields).

(** The settlement that [validateGitHubToken] treats as fatal. *)
Definition unauthorized (r : axios_result) : bool :=
  match r with
  | Rejected (Some (st, _)) => (st =? 401)%Z
  | _ => false
  end.

(** The process after [n] requests, the credential check still pending. *)
Definition waiting (n : nat) : process :=
  {| issued := [GetUser]; pending := true; listening := true;
     exited := None; accepted := n; log := [] |}.

(** ** Vocabulary of the further properties *)

(** The own properties of a value: those of an object, none of anything
    else. *)
Definition props (v : json) : list (string * json) :=
  match v with
  | JObj kvs => kvs
  | _ => []
  end.

(** Whether a value is [null]. *)
Definition is_null (v : json) : bool :=
  match v with
  | JNull => true
  | _ => false
  end.


(** The upstream data that the list handler can map: an array with no
    [null] in it. *)
Definition repository_list (data : json) : option (list json) :=
  match data with
  | JArr items => if existsb is_null items then None else Some items
  | _ => None
  end.

(** The part of an error answer that carries the upstream message. *)
Definition message_part (data : json) : list (string * json) :=
  match lookup "message" (props data) with
  | Some m => [("message", m)]
  | None => []
  end.

(** [description] is absent, or a string of 1 to 1000 characters. *)
Definition description_within (item : jsval) : Prop :=
  match item with
  | None => True
  | Some (JStr d) => (1 <= String.length d <= 1000)%nat
  | Some _ => False
  end.

(** The error that [name] alone causes, if any. *)
Definition name_error (item : jsval) : option Joi.code :=
  match item with
  | None => Some Joi.any_required
  | Some (JStr s) =>
      if Joi.is_empty s then Some Joi.string_empty
      else if Nat.ltb 100 (String.length s) then Some (Joi.string_max 100)
      else None
  | Some _ => Some Joi.string_base
  end.

(** The errors that the declared fields of a creation body can cause. *)
Definition create_errors : list (Joi.code * list string) :=
  [ (Joi.object_base, []);
    (Joi.any_required, ["name"]);
    (Joi.string_base, ["name"]);
    (Joi.string_empty, ["name"]);
    (Joi.string_max 100, ["name"]);
    (Joi.string_base, ["description"]);
    (Joi.string_empty, ["description"]);
    (Joi.string_max 1000, ["description"]);
    (Joi.boolean_base, ["private"]);
    (Joi.boolean_base, ["auto_init"]) ].

(** * Lemmas *)

(** ** Own properties *)

Lemma lookup_set_same k v kvs : lookup k (set_prop k v kvs) = Some v.
Proof.
  induction kvs as [|[k' v'] rest IH]; simpl.
  - now rewrite String.eqb_refl.
  - destruct (String.eqb k' k) eqn:E; simpl; rewrite E; auto.
Qed.

Lemma lookup_set_other k k' v kvs :
  String.eqb k k' = false -> lookup k' (set_prop k v kvs) = lookup k' kvs.
Proof.
  intros Hne. induction kvs as [|[k0 v0] rest IH]; simpl.
  - now rewrite Hne.
  - destruct (String.eqb k0 k) eqn:E; simpl.
    + apply String.eqb_eq in E. subst k0. now rewrite Hne.
    + now rewrite IH.
Qed.

Lemma set_prop_same k v kvs : lookup k kvs = Some v -> set_prop k v kvs = kvs.
Proof.
  induction kvs as [|[k0 v0] rest IH]; simpl; [discriminate|].
  destruct (String.eqb k0 k); intros H.
  - now inversion H.
  - now rewrite IH.
Qed.

Lemma unprocessed_set declared k v kvs :
  mem k declared = true ->
  Joi.unprocessed declared (set_prop k v kvs) = Joi.unprocessed declared kvs.
Proof.
  intros Hk. unfold Joi.unprocessed, keys.
  induction kvs as [|[k0 v0] rest IH]; simpl.
  - now rewrite Hk.
  - destruct (String.eqb k0 k) eqn:E; simpl.
    + reflexivity.
    + now rewrite IH.
Qed.

Lemma lookup_mem k kvs :
  mem k (keys kvs) = match lookup k kvs with Some _ => true | None => false end.
Proof.
  unfold mem, keys. induction kvs as [|[k0 v0] rest IH]; simpl; auto.
  rewrite String.eqb_sym. destruct (String.eqb k0 k); simpl; auto.
Qed.

Lemma mem_In k ks : mem k ks = true <-> In k ks.
Proof.
  unfold mem. rewrite existsb_exists. split.
  - intros (x & Hin & E). apply String.eqb_eq in E. now subst.
  - intros H. exists k. now rewrite String.eqb_refl.
Qed.

Lemma filter_all {A} (f : A -> bool) l :
  (forall x, In x l -> f x = true) -> filter f l = l.
Proof.
  induction l as [|x l IH]; simpl; auto. intros H.
  rewrite (H x) by auto. now rewrite IH by auto.
Qed.

(** ** Strings and booleans *)

Lemma message_nonempty e : Joi.message e <> EmptyString.
Proof. unfold Joi.message, Joi.dquote. simpl. discriminate. Qed.

Lemma run_rules_spec rules path s :
  match Joi.run_rules rules path s with
  | Joi.Valid r => r = Some (JStr s) /\ forallb (rule_ok s) rules = true
  | Joi.Invalid _ => forallb (rule_ok s) rules = false
  end.
Proof.
  induction rules as [|[n|n] rest IH]; simpl; auto.
  - destruct (Nat.leb n (String.length s)); simpl; auto.
  - destruct (Nat.leb (String.length s) n); simpl; auto.
Qed.

Lemma string_valid p rules path v r :
  Joi.validate_at (Joi.String_ p rules) path v = Joi.Valid r <->
  r = v /\
  match v with
  | None => p = Joi.Optional
  | Some (JStr s) => accepts rules s = true
  | Some _ => False
  end.
Proof.
  simpl. destruct v as [[| | |s| |]|]; try (split; [discriminate | tauto]).
  - unfold accepts.
    destruct (Joi.is_empty s && negb (existsb Joi.is_min0 rules)); simpl.
    + split; [discriminate | intros [_ H]; discriminate].
    + pose proof (run_rules_spec rules path s) as H.
      destruct (Joi.run_rules rules path s) as [r'|e].
      * destruct H as [-> H]. split.
        -- intros E. inversion E. auto.
        -- intros [-> _]. reflexivity.
      * split; [discriminate | intros [_ H']; congruence].
  - destruct p; simpl; split; try discriminate.
    + intros E; inversion E; auto.
    + intros [-> _]; reflexivity.
    + intros [_ H]; discriminate.
Qed.

Lemma required_string_valid path item :
  Joi.validate_at (Joi.String_ Joi.Required []) path item = Joi.Valid item <->
  exists s, item = Some (JStr s) /\ s <> EmptyString.
Proof.
  rewrite string_valid. unfold accepts.
  destruct item as [[| | |s| |]|]; simpl;
    try solve [split; [intros [_ []] | intros (? & C & _); discriminate]].
  - destruct s as [|c s]; simpl.
    + split; [intros [_ C]; discriminate | intros (s & H & C)].
      inversion H. subst. contradiction.
    + split; [|auto]. intros _. exists (String c s).
      split; [reflexivity|discriminate].
  - split; [intros [_ C]; discriminate | intros (? & C & _); discriminate].
Qed.

Lemma accepts_name n :
  accepts [Joi.Min 1; Joi.Max 100] n = true <->
  (1 <= String.length n <= 100)%nat.
Proof.
  unfold accepts. cbn -[Nat.leb].
  rewrite !andb_true_r, andb_true_iff, negb_true_iff, andb_true_iff,
    !Nat.leb_le.
  destruct n; simpl; split; lia.
Qed.

Lemma boolean_valid p dflt path v r :
  Joi.validate_at (Joi.Boolean_ p dflt) path v = Joi.Valid r <->
  match v with
  | None => p = Joi.Optional /\ r = option_map JBool dflt
  | Some _ => exists b, as_boolean v = Some b /\ r = Some (JBool b)
  end.
Proof.
  unfold as_boolean. simpl.
  destruct v as [x|].
  - destruct (Joi.coerce_boolean (Some x)) as [[| b | | | |]|] eqn:E;
      try (split; [discriminate | intros (b' & H & _); discriminate]).
    + split.
      * intros H; inversion H; eauto.
      * intros (b' & H & ->). inversion H. reflexivity.
    + exfalso. destruct x; simpl in E; try discriminate.
      destruct (String.eqb _ _); [discriminate|].
      destruct (String.eqb _ _); discriminate.
  - simpl. destruct p; simpl; split; try discriminate.
    + intros H; inversion H; auto.
    + intros [_ ->]; reflexivity.
    + intros [H _]; discriminate.
Qed.

Lemma boolean_default_valid dflt path v r :
  Joi.validate_at (Joi.Boolean_ Joi.Optional (Some dflt)) path v
    = Joi.Valid r <->
  exists b, field_boolean dflt v = Some b /\ r = Some (JBool b).
Proof.
  rewrite boolean_valid. unfold field_boolean. destruct v; simpl.
  - tauto.
  - split.
    + intros [_ ->]. eauto.
    + intros (b & H & ->). inversion H. auto.
Qed.

Lemma field_boolean_normalized dflt item b :
  field_boolean dflt item = Some b -> normalized dflt item (Some (JBool b)).
Proof.
  unfold field_boolean, as_boolean, normalized.
  destruct item as [[| b' | | s | |]|]; simpl; try discriminate.
  - intros H; inversion H; reflexivity.
  - destruct (String.eqb (Joi.toLowerCase s) "true") eqn:Et.
    + intros H; inversion H. exists true. apply String.eqb_eq in Et. auto.
    + destruct (String.eqb (Joi.toLowerCase s) "false") eqn:Ef;
        [|discriminate].
      intros H; inversion H. exists false. apply String.eqb_eq in Ef. auto.
  - intros H; inversion H; reflexivity.
Qed.

(** ** Objects *)

Lemma each_cons vc fin key child rest value :
  Joi.each vc fin ((key, child) :: rest) value =
  match vc key child (lookup key value) with
  | Joi.Invalid e => Joi.Invalid e
  | Joi.Valid None =>
      Joi.each vc fin rest
        match lookup key value with
        | Some _ => delete_prop key value
        | None => value
        end
  | Joi.Valid (Some r) => Joi.each vc fin rest (set_prop key r value)
  end.
Proof. reflexivity. Qed.

Lemma each_nil vc fin value : Joi.each vc fin [] value = fin value.
Proof. reflexivity. Qed.

Lemma validate_object p children path kvs :
  Joi.validate_at (Joi.Object_ p children) path (Some (JObj kvs)) =
  Joi.each (fun key child item => Joi.validate_at child (path ++ [key]) item)
    (Joi.leftover (map fst children) path kvs) children kvs.
Proof. reflexivity. Qed.

Lemma each_invalid vc fin :
  (forall value, exists e, fin value = Joi.Invalid e) ->
  forall cs value, exists e, Joi.each vc fin cs value = Joi.Invalid e.
Proof.
  intros Hfin cs. induction cs as [|[key child] rest IH]; intros value.
  - apply Hfin.
  - rewrite each_cons.
    destruct (vc key child (lookup key value)) as [[r|]|e]; eauto.
Qed.

Lemma leftover_unknown declared path kvs k :
  In k (keys kvs) -> mem k declared = false ->
  forall value, exists e, Joi.leftover declared path kvs value = Joi.Invalid e.
Proof.
  intros Hin Hmem value. unfold Joi.leftover.
  destruct (Joi.unprocessed declared kvs) as [|k' ks] eqn:Hu; eauto.
  exfalso. assert (In k (Joi.unprocessed declared kvs)) as C.
  { unfold Joi.unprocessed. apply filter_In. now rewrite Hmem. }
  now rewrite Hu in C.
Qed.

Lemma unknown_key_invalid s kvs k :
  In k (keys kvs) -> mem k (declared s) = false ->
  exists e, Joi.validate s (JObj kvs) = Joi.Invalid e.
Proof.
  intros Hin Hmem. unfold Joi.validate.
  destruct s as [p rules|p dflt|p children]; simpl declared in Hmem.
  - simpl. eauto.
  - simpl. eauto.
  - rewrite validate_object.
    apply each_invalid. now apply leftover_unknown with (k := k).
Qed.

Lemma each_stable vc fin cs :
  (forall key child item r,
      In (key, child) cs -> vc key child item = Joi.Valid r -> r = item) ->
  forall value v,
    Joi.each vc fin cs value = Joi.Valid v <->
    Forall (fun kc => vc (fst kc) (snd kc) (lookup (fst kc) value)
                      = Joi.Valid (lookup (fst kc) value)) cs
    /\ fin value = Joi.Valid v.
Proof.
  induction cs as [|[key child] rest IH]; intros Hst value v.
  - rewrite each_nil. split; [auto | tauto].
  - rewrite each_cons, Forall_cons_iff. simpl fst; simpl snd.
    destruct (vc key child (lookup key value)) as [r|e] eqn:E.
    + apply Hst in E as ->; [|now left].
      assert (Hrest : forall k c i r0, In (k, c) rest ->
                        vc k c i = Joi.Valid r0 -> r0 = i).
      { intros k c i r0 Hin. apply Hst. now right. }
      destruct (lookup key value) as [x|] eqn:Hl.
      * rewrite (set_prop_same _ _ _ Hl), (IH Hrest). tauto.
      * rewrite (IH Hrest). tauto.
    + split; [discriminate | intros [[C _] _]; discriminate].
Qed.

Lemma leftover_valid declared path kvs value r :
  Joi.leftover declared path kvs value = Joi.Valid r <->
  Joi.unprocessed declared kvs = [] /\ r = Some (JObj value).
Proof.
  unfold Joi.leftover. destruct (Joi.unprocessed declared kvs).
  - split; [intros H; inversion H; auto | intros [_ ->]; reflexivity].
  - split; [discriminate | intros [C _]; discriminate].
Qed.

Lemma object_valid p cs path v r :
  Forall (fun kc => stable (snd kc)) cs ->
  Joi.validate_at (Joi.Object_ p cs) path v = Joi.Valid r <->
  r = v /\
  match v with
  | None => p = Joi.Optional
  | Some (JObj kvs) =>
      Forall (fun kc => Joi.validate_at (snd kc) (path ++ [fst kc])
                          (lookup (fst kc) kvs)
                        = Joi.Valid (lookup (fst kc) kvs)) cs
      /\ Joi.unprocessed (map fst cs) kvs = []
  | Some _ => False
  end.
Proof.
  intros Hst.
  destruct v as [[| | | | |kvs]|]; try (simpl; split; [discriminate|tauto]).
  - rewrite validate_object, each_stable, leftover_valid.
    + intuition congruence.
    + intros key child item r0 Hin. rewrite Forall_forall in Hst.
      apply (Hst (key, child) Hin).
  - simpl. destruct p; simpl; split; try discriminate.
    + intros H; inversion H; auto.
    + intros [-> _]; reflexivity.
    + intros [_ C]; discriminate.
Qed.

Lemma stable_string p rules : stable (Joi.String_ p rules).
Proof. intros path item r H. now apply string_valid in H. Qed.

Lemma stable_object p cs :
  Forall (fun kc => stable (snd kc)) cs -> stable (Joi.Object_ p cs).
Proof. intros Hst path item r H. now apply object_valid in H. Qed.

(** ** The creation schema *)

Lemma createRepoSchema_eq :
  createRepoSchema =
  Joi.Object_ Joi.Optional
    [ ("name", Joi.String_ Joi.Required [Joi.Min 1; Joi.Max 100]);
      ("description", Joi.String_ Joi.Optional [Joi.Max 1000]);
      ("private", Joi.Boolean_ Joi.Optional (Some false));
      ("auto_init", Joi.Boolean_ Joi.Optional (Some true)) ].
Proof. reflexivity. Qed.

Lemma create_valid kvs v :
  Joi.validate createRepoSchema (JObj kvs) = Joi.Valid v <->
  exists n b1 b2,
    lookup "name" kvs = Some (JStr n) /\
    accepts [Joi.Min 1; Joi.Max 100] n = true /\
    description_ok (lookup "description" kvs) /\
    field_boolean false (lookup "private" kvs) = Some b1 /\
    field_boolean true (lookup "auto_init" kvs) = Some b2 /\
    Joi.unprocessed create_keys kvs = [] /\
    v = Some (JObj (set_prop "auto_init" (JBool b2)
                     (set_prop "private" (JBool b1) kvs))).
Proof.
  unfold Joi.validate. rewrite createRepoSchema_eq, validate_object.
  rewrite each_cons.
  destruct (Joi.validate_at _ ([] ++ ["name"]) (lookup "name" kvs))
    as [r1|e] eqn:H1.
  2:{ split; [destruct e; discriminate|].
      intros (n & b1 & b2 & Hn & Hacc & _).
      assert (Joi.validate_at
                (Joi.String_ Joi.Required [Joi.Min 1; Joi.Max 100])
                ([] ++ ["name"]) (lookup "name" kvs)
              = Joi.Valid (lookup "name" kvs)) as C.
      { apply string_valid. rewrite Hn. auto. }
      congruence. }
  apply string_valid in H1 as [-> H1].
  destruct (lookup "name" kvs) as [[| | |n| |]|] eqn:Hn; try contradiction;
    try discriminate.
  rewrite (set_prop_same _ _ _ Hn).
  rewrite each_cons.
  destruct (Joi.validate_at _ ([] ++ ["description"])
              (lookup "description" kvs)) as [r2|e] eqn:H2.
  2:{ split; [discriminate|].
      intros (n' & b1 & b2 & _ & _ & Hd & _).
      assert (Joi.validate_at (Joi.String_ Joi.Optional [Joi.Max 1000])
                ([] ++ ["description"]) (lookup "description" kvs)
              = Joi.Valid (lookup "description" kvs)) as C.
      { apply string_valid. split; auto. unfold description_ok in Hd.
        destruct (lookup "description" kvs) as [[]|]; auto. }
      congruence. }
  apply string_valid in H2 as [-> H2].
  assert (Hstep2 :
    match lookup "description" kvs with
    | Some r => set_prop "description" r kvs
    | None => match lookup "description" kvs with
              | Some _ => delete_prop "description" kvs
              | None => kvs end
    end = kvs).
  { destruct (lookup "description" kvs) eqn:Hd; auto using set_prop_same. }
  assert (Hdok : description_ok (lookup "description" kvs)).
  { unfold description_ok. destruct (lookup "description" kvs) as [[]|]; auto. }
  clear H2.
  transitivity (Joi.each
      (fun key child item => Joi.validate_at child ([] ++ [key]) item)
      (Joi.leftover create_keys [] kvs)
      [ ("private", Joi.Boolean_ Joi.Optional (Some false));
        ("auto_init", Joi.Boolean_ Joi.Optional (Some true)) ] kvs
    = Joi.Valid v).
  { destruct (lookup "description" kvs); rewrite ?Hstep2; reflexivity. }
  clear Hstep2.
  rewrite each_cons.
  destruct (Joi.validate_at _ ([] ++ ["private"]) (lookup "private" kvs))
    as [r3|e] eqn:H3.
  2:{ split; [discriminate|].
      intros (n' & b1 & b2 & _ & _ & _ & Hp & _).
      assert (Joi.validate_at (Joi.Boolean_ Joi.Optional (Some false))
                ([] ++ ["private"]) (lookup "private" kvs)
              = Joi.Valid (Some (JBool b1))) as C.
      { apply boolean_default_valid. eauto. }
      congruence. }
  apply boolean_default_valid in H3 as (b1 & Hb1 & ->).
  rewrite each_cons.
  rewrite (lookup_set_other "private" "auto_init") by reflexivity.
  destruct (Joi.validate_at _ ([] ++ ["auto_init"]) (lookup "auto_init" kvs))
    as [r4|e] eqn:H4.
  2:{ split; [discriminate|].
      intros (n' & b1' & b2 & _ & _ & _ & _ & Ha & _).
      assert (Joi.validate_at (Joi.Boolean_ Joi.Optional (Some true))
                ([] ++ ["auto_init"]) (lookup "auto_init" kvs)
              = Joi.Valid (Some (JBool b2))) as C.
      { apply boolean_default_valid. eauto. }
      congruence. }
  apply boolean_default_valid in H4 as (b2 & Hb2 & ->).
  rewrite each_nil. unfold Joi.leftover.
  destruct (Joi.unprocessed create_keys kvs) as [|k ks] eqn:Hu.
  - split.
    + intros E. inversion E. exists n, b1, b2. auto 10.
    + intros (n' & b1' & b2' & _ & _ & _ & Hp & Ha & _ & ->).
      congruence.
  - split; [discriminate|].
    intros (n' & b1' & b2' & _ & _ & _ & _ & _ & C & _). discriminate.
Qed.

Lemma create_valid_object body v :
  Joi.validate createRepoSchema body = Joi.Valid v ->
  exists kvs, body = JObj kvs.
Proof.
  destruct body; try discriminate. eauto.
Qed.

Lemma create_invalid_response upstream body e :
  Joi.validate createRepoSchema body = Joi.Invalid e ->
  create_repo upstream body =
  {| calls := [];
     result := Responded
       {| status := 400; body := JObj [("error", JStr (Joi.message e))] |} |}.
Proof. intros H. unfold create_repo. now rewrite H. Qed.

(** With a valid [name], the error of an empty [description] is the one
    reported. *)
Lemma empty_description_error kvs n :
  lookup "name" kvs = Some (JStr n) ->
  (1 <= String.length n <= 100)%nat ->
  lookup "description" kvs = Some (JStr EmptyString) ->
  Joi.validate createRepoSchema (JObj kvs) =
  Joi.Invalid {| Joi.err_code := Joi.string_empty;
                 Joi.err_path := ["description"] |}.
Proof.
  intros Hn Hlen Hd. apply accepts_name in Hlen.
  unfold Joi.validate.
  rewrite createRepoSchema_eq, validate_object, each_cons.
  assert (H1 : Joi.validate_at
                 (Joi.String_ Joi.Required [Joi.Min 1; Joi.Max 100])
                 ([] ++ ["name"]) (lookup "name" kvs)
               = Joi.Valid (lookup "name" kvs)).
  { apply string_valid. rewrite Hn. auto. }
  rewrite H1, Hn, (set_prop_same _ _ _ Hn), each_cons, Hd.
  reflexivity.
Qed.

(** ** The webhook schema *)

Lemma webhookSchema_eq :
  webhookSchema =
  Joi.Object_ Joi.Optional
    [ ("repository", repositorySchema);
      ("action", Joi.String_ Joi.Required []) ].
Proof. reflexivity. Qed.

Lemma stable_owner : stable ownerSchema.
Proof. apply stable_object. repeat constructor. apply stable_string. Qed.

Lemma stable_repository : stable repositorySchema.
Proof.
  apply stable_object. repeat constructor;
    [apply stable_string | apply stable_owner].
Qed.

Lemma owner_valid path item :
  Joi.validate_at ownerSchema path item = Joi.Valid item <->
  exists okvs login,
    item = Some (JObj okvs) /\
    lookup "login" okvs = Some (JStr login) /\ login <> EmptyString /\
    Joi.unprocessed ["login"] okvs = [].
Proof.
  unfold ownerSchema. rewrite object_valid
    by (repeat constructor; apply stable_string).
  destruct item as [[| | | | |okvs]|];
    try solve [split; [intros [_ []] | intros (? & ? & C & _); discriminate]].
  - rewrite Forall_cons_iff. simpl fst; simpl snd.
    rewrite required_string_valid. split.
    + intros (_ & ((s & Hs & Hne) & _) & Hu). exists okvs, s. auto.
    + intros (o & l & Ho & Hl & Hne & Hu). inversion Ho; subst o.
      split; [reflexivity|]. split; [|exact Hu].
      split; [eauto | constructor].
  - split; [intros [_ C]; discriminate | intros (? & ? & C & _); discriminate].
Qed.

Lemma repository_valid path item :
  Joi.validate_at repositorySchema path item = Joi.Valid item <->
  exists rkvs okvs name login,
    item = Some (JObj rkvs) /\
    lookup "name" rkvs = Some (JStr name) /\ name <> EmptyString /\
    lookup "owner" rkvs = Some (JObj okvs) /\
    lookup "login" okvs = Some (JStr login) /\ login <> EmptyString /\
    Joi.unprocessed ["name"; "owner"] rkvs = [] /\
    Joi.unprocessed ["login"] okvs = [].
Proof.
  unfold repositorySchema. rewrite object_valid
    by (repeat constructor; [apply stable_string | apply stable_owner]).
  destruct item as [[| | | | |rkvs]|];
    try solve
      [split; [intros [_ []] | intros (? & ? & ? & ? & C & _); discriminate]].
  - rewrite !Forall_cons_iff. simpl fst; simpl snd.
    rewrite required_string_valid, owner_valid. split.
    + intros (_ & ((s & Hs & Hne) & (o & l & Ho & Hl & Hlne & Hlu) & _) & Hu).
      exists rkvs, o, s, l. auto 10.
    + intros (r & o & n & l & Hr & Hn & Hnne & Ho & Hl & Hlne & Hu & Hlu).
      inversion Hr; subst r.
      split; [reflexivity|]. split; [|exact Hu].
      split; [eauto|]. split; [|constructor]. exists o, l. auto.
  - split; [intros [_ C]; discriminate
           | intros (? & ? & ? & ? & C & _); discriminate].
Qed.

Lemma webhook_valid body v :
  Joi.validate webhookSchema body = Joi.Valid v <->
  exists kvs, body = JObj kvs /\ v = Some body /\ webhook_ok kvs.
Proof.
  unfold Joi.validate. rewrite webhookSchema_eq, object_valid
    by (repeat constructor; [apply stable_repository | apply stable_string]).
  destruct body as [| | | | |kvs];
    try solve [split; [intros [_ []] | intros (? & C & _); discriminate]].
  rewrite !Forall_cons_iff. simpl fst; simpl snd.
  rewrite required_string_valid, repository_valid. unfold webhook_ok. split.
  - intros (-> & ((r & o & n & l & Hr & Hn & Hnne & Ho & Hl & Hlne & Hru & Hou)
                  & (a & Ha & Hane) & _) & Hu).
    exists kvs. split; [reflexivity|]. split; [reflexivity|].
    exists r, o, n, l, a. auto 12.
  - intros (k & Hk & -> & (r & o & n & l & a & Hr & Hn & Hnne & Ho & Hl & Hlne
                           & Ha & Hane & Hu & Hru & Hou)).
    inversion Hk; subst k.
    split; [reflexivity|]. split; [|exact Hu].
    split; [|split; [eauto | constructor]].
    exists r, o, n, l. auto 10.
Qed.

Lemma webhook_invalid_response body e :
  Joi.validate webhookSchema body = Joi.Invalid e ->
  webhook body =
  {| calls := [];
     result := Responded
       {| status := 400; body := JObj [("error", JStr (Joi.message e))] |} |}.
Proof. intros H. unfold webhook. now rewrite H. Qed.

(** ** The error translator *)

(** An upstream body without [message] leaves the key out of the answer,
    and an upstream body that is [null] makes the [catch] block itself throw,
    so that the handler sends nothing. *)
Example translate_without_message :
  result (list_repos (Rejected (Some (404%Z, JObj [])))) =
  Responded
    {| status := 404; body := JObj [("error", JStr "GitHub API error")] |}.
Proof. reflexivity. Qed.

Example translate_null_body :
  result (list_repos (Rejected (Some (404%Z, JNull)))) = Unhandled.
Proof. reflexivity. Qed.

(** ** The response mapper *)

Lemma keys_project fields kvs :
  keys (project fields kvs) = filter (fun k => mem k (keys kvs)) fields.
Proof.
  unfold project, keys. induction fields as [|f rest IH]; simpl; auto.
  rewrite lookup_mem. destruct (lookup f kvs); simpl; now rewrite IH.
Qed.

Lemma lookup_project fields kvs k :
  lookup k (project fields kvs) = if mem k fields then lookup k kvs else None.
Proof.
  unfold project, mem. induction fields as [|f rest IH]; simpl; auto.
  destruct (lookup f kvs) as [v|] eqn:Hf; simpl.
  - rewrite String.eqb_sym.
    destruct (String.eqb k f) eqn:E; simpl; auto.
    apply String.eqb_eq in E. now subst.
  - rewrite IH. destruct (String.eqb k f) eqn:E; simpl; auto.
    apply String.eqb_eq in E. subst.
    rewrite Hf. now destruct (existsb _ rest).
Qed.

Lemma map_items_summary raws :
  map_items toSummary (map JObj raws) =
  Normal (map (fun kvs => map (fun k => (k, lookup k kvs)) summary_fields)
              raws).
Proof.
  induction raws as [|kvs rest IH]; [reflexivity|].
  cbn [map map_items]. rewrite IH. reflexivity.
Qed.

(** ** Start-up *)

Lemma run_app evs1 evs2 :
  run_events (evs1 ++ evs2) = fold_left step evs2 (run_events evs1).
Proof. unfold run_events. apply fold_left_app. Qed.

Lemma run_requests n : run_events (repeat Request n) = waiting n.
Proof.
  induction n as [|n IH]; [reflexivity|].
  replace (S n) with (n + 1)%nat by lia.
  rewrite repeat_app, run_app, IH. unfold waiting. cbn. f_equal. lia.
Qed.

Lemma exited_stays p code evs :
  exited p = Some code -> fold_left step evs p = p.
Proof.
  intros H. induction evs as [|e evs IH]; [reflexivity|].
  simpl. unfold step at 2. now rewrite H.
Qed.

Lemma running_counts evs : forall p,
  exited p = None -> pending p = false -> listening p = true ->
  let q := fold_left step evs p in
  issued q = issued p /\ exited q = None /\ listening q = true /\
  log q = log p /\ accepted q = (accepted p + requests evs)%nat.
Proof.
  induction evs as [|e evs IH]; intros p He Hp Hl q; subst q.
  - unfold requests. simpl. repeat split; auto.
  - cbn [fold_left]. destruct e as [|r].
    + assert (Hs : step p Request =
                   {| issued := issued p; pending := pending p;
                      listening := listening p; exited := exited p;
                      accepted := S (accepted p); log := log p |}).
      { unfold step. now rewrite He, Hl. }
      rewrite Hs.
      destruct (IH {| issued := issued p; pending := pending p;
                      listening := listening p; exited := exited p;
                      accepted := S (accepted p); log := log p |})
        as (Hi & Hx & Hli & Hlo & Ha); auto.
      repeat split; auto. rewrite Ha. unfold requests. simpl. lia.
    + assert (Hs : step p (Settled r) = p).
      { unfold step. now rewrite He, Hp. }
      rewrite Hs. apply IH; auto.
Qed.

Ltac after_settlement later :=
  match goal with
  | |- context [fold_left step later ?q] =>
      let H := fresh "H" in
      pose proof (running_counts later q eq_refl eq_refl eq_refl) as H;
      cbv zeta in H; cbn [issued exited listening log accepted] in H;
      destruct H as (-> & -> & -> & -> & ->)
  end.

(** ** Lemmas for the further properties *)

Lemma get_props v k : v <> JNull -> get v k = Normal (lookup k (props v)).
Proof. intros H. destruct v; try reflexivity. now elim H. Qed.

Lemma toSummary_props v :
  v <> JNull ->
  toSummary v =
  Normal (map (fun k => (k, lookup k (props v))) summary_fields).
Proof.
  intros H. unfold toSummary. rewrite !(get_props v _ H). reflexivity.
Qed.


Lemma is_null_false v : is_null v = false <-> v <> JNull.
Proof. destruct v; simpl; split; congruence. Qed.

Lemma map_items_some items :
  existsb is_null items = false ->
  map_items toSummary items =
  Normal (map (fun v => map (fun k => (k, lookup k (props v))) summary_fields)
              items).
Proof.
  induction items as [|v rest IH]; [reflexivity|].
  cbn [existsb]. intros H. apply orb_false_iff in H as [Hv Hrest].
  cbn [map map_items]. rewrite toSummary_props by now apply is_null_false.
  cbn [bind]. rewrite (IH Hrest). reflexivity.
Qed.

Lemma map_items_null items :
  existsb is_null items = true ->
  exists e, map_items toSummary items = Throw e /\ error_response e = None.
Proof.
  induction items as [|v rest IH]; [discriminate|].
  cbn [existsb]. intros H. cbn [map_items].
  destruct (is_null v) eqn:Hv.
  - destruct v; try discriminate. exists TypeError. auto.
  - simpl in H. destruct (IH H) as (e & He & Hr).
    rewrite toSummary_props by now apply is_null_false.
    cbn [bind]. rewrite He. exists e. auto.
Qed.

Lemma generic_answer st data :
  data <> JNull ->
  bind (get data "message")
    (fun message =>
       Normal (res_json st [ ("error", Some (JStr "GitHub API error"));
                             ("message", message) ])) =
  Normal {| status := st;
            body := JObj (("error", JStr "GitHub API error")
                            :: message_part data) |}.
Proof.
  intros H. rewrite get_props by exact H. unfold message_part. cbn [bind].
  unfold res_json. cbn [stringify].
  now destruct (lookup "message" (props data)).
Qed.

Lemma list_resolved_responds data :
  exists r, result (list_repos (Resolved data)) = Responded r.
Proof.
  unfold list_repos, try_catch, await. cbn [result bind].
  destruct data as [| | | |items|]; try (eexists; reflexivity).
  unfold array_map. destruct (existsb is_null items) eqn:Hn.
  - destruct (map_items_null items Hn) as (e & -> & Hr). cbn [bind].
    unfold list_catch. rewrite Hr. eauto.
  - rewrite (map_items_some items Hn). cbn [bind]. eauto.
Qed.

Lemma accepts_description d :
  accepts [Joi.Max 1000] d = true <-> (1 <= String.length d <= 1000)%nat.
Proof.
  unfold accepts. cbn -[Nat.leb].
  rewrite !andb_true_r, andb_true_iff, negb_true_iff, Nat.leb_le.
  destruct d; simpl; split; lia.
Qed.

Lemma description_ok_within item :
  description_ok item <-> description_within item.
Proof.
  unfold description_ok, description_within.
  destruct item as [[| | |d| |]|]; try tauto. apply accepts_description.
Qed.

Lemma unprocessed_nil declared kvs :
  Joi.unprocessed declared kvs = [] <->
  forall k, In k (keys kvs) -> In k declared.
Proof.
  unfold Joi.unprocessed. split.
  - intros H k Hk. apply mem_In.
    destruct (mem k declared) eqn:E; [reflexivity|].
    assert (In k (filter (fun k => negb (mem k declared)) (keys kvs))) as C.
    { apply filter_In. now rewrite E. }
    now rewrite H in C.
  - intros H. induction (keys kvs) as [|k ks IH]; [reflexivity|].
    simpl. assert (mem k declared = true) as -> by (apply mem_In, H; now left).
    simpl. apply IH. intros k' Hk'. apply H. now right.
Qed.

Lemma keys_set_prop k v kvs k' :
  In k' (keys (set_prop k v kvs)) -> k' = k \/ In k' (keys kvs).
Proof.
  unfold keys. induction kvs as [|[k0 v0] rest IH]; simpl.
  - intros [<-|[]]. now left.
  - destruct (String.eqb k0 k) eqn:E; simpl.
    + tauto.
    + intros [<-|H]; [right; now left|]. destruct (IH H); auto.
Qed.

Lemma name_invalid path item e :
  Joi.validate_at (Joi.String_ Joi.Required [Joi.Min 1; Joi.Max 100])
    path item = Joi.Invalid e ->
  Joi.err_path e = path /\
  In (Joi.err_code e)
     [Joi.any_required; Joi.string_base; Joi.string_empty;
      Joi.string_max 100].
Proof.
  destruct item as [[| | |s| |]|];
    try (simpl; intros H; inversion H; simpl; tauto).
  destruct s as [|ch s]; cbn -[Nat.leb].
  - intros H; inversion H; simpl; tauto.
  - assert (Nat.leb 1 (S (String.length s)) = true) as -> by reflexivity.
    destruct (Nat.leb (S (String.length s)) 100); [discriminate|].
    intros H; inversion H; simpl; tauto.
Qed.

Lemma description_invalid path item e :
  Joi.validate_at (Joi.String_ Joi.Optional [Joi.Max 1000]) path item
  = Joi.Invalid e ->
  Joi.err_path e = path /\
  In (Joi.err_code e)
     [Joi.string_base; Joi.string_empty; Joi.string_max 1000].
Proof.
  destruct item as [[| | |s| |]|];
    try (simpl; intros H; inversion H; simpl; tauto);
    try (simpl; discriminate).
  destruct s as [|ch s]; cbn -[Nat.leb].
  - intros H; inversion H; simpl; tauto.
  - destruct (Nat.leb (S (String.length s)) 1000); [discriminate|].
    intros H; inversion H; simpl; tauto.
Qed.

Lemma boolean_invalid dflt path item e :
  Joi.validate_at (Joi.Boolean_ Joi.Optional dflt) path item = Joi.Invalid e ->
  e = {| Joi.err_code := Joi.boolean_base; Joi.err_path := path |}.
Proof.
  simpl. destruct (Joi.coerce_boolean item) as [[]|]; simpl;
    try discriminate; now intros H; inversion H.
Qed.

Lemma events_shape evs :
  (exists n, evs = repeat Request n) \/
  (exists n r later, evs = (repeat Request n ++ Settled r :: later)%list).
Proof.
  induction evs as [|[|r] evs IH].
  - left. now exists 0%nat.
  - destruct IH as [[n ->]|(n & r & later & ->)].
    + left. now exists (S n).
    + right. now exists (S n), r, later.
  - right. now exists 0%nat, r, evs.
Qed.

Ltac settled later :=
  match goal with
  | |- context [fold_left step later ?q] =>
      let H := fresh "H" in
      pose proof (running_counts later q eq_refl eq_refl eq_refl) as H;
      cbv zeta in H; cbn [issued exited listening log accepted] in H;
      destruct H as (? & ? & ? & ? & ?)
  end.

Lemma settled_outcome n r later :
  let p := run_events (repeat Request n ++ Settled r :: later) in
  issued p = [GetUser] /\
  exited p = (if unauthorized r then Some 1%Z else None) /\
  accepted p =
    (if unauthorized r then n else n + requests later)%nat.
Proof.
  intros p. unfold p. rewrite run_app, run_requests. cbn [fold_left].
  change (step (waiting n) (Settled r))
    with (validateGitHubToken r (waiting n)).
  destruct r as [data|[[st data]|]];
    cbn [unauthorized validateGitHubToken waiting issued exited listening
         log accepted app].
  - settled later. auto.
  - destruct (st =? 401)%Z.
    + erewrite exited_stays by reflexivity. auto.
    + settled later. auto.
  - settled later. auto.
Qed.

Lemma requests_app evs1 evs2 :
  requests (evs1 ++ evs2) = (requests evs1 + requests evs2)%nat.
Proof. unfold requests. now rewrite filter_app, length_app. Qed.

Lemma requests_repeat n : requests (repeat Request n) = n.
Proof.
  unfold requests. induction n as [|n IH]; simpl; [reflexivity|].
  now rewrite IH.
Qed.

(** * The claims *)

(** C1. An upstream 403 is translated differently by the two routes: on the
    list route the answer is 403 with the fixed permission-denied body,
    whatever the upstream body [any] holds; on the create route, for a body
    that passed validation, the answer is 403 with error [GitHub API error]
    and the message [m] that upstream supplied, unchanged.  For every status
    other than 403 and 422 the two routes translate an upstream answer in the
    same way. *)
Theorem forbidden_by_route
  (upstream : jsval -> axios_result) (body : json) (value : jsval)
  (data m : json)
  (Hvalid : Joi.validate createRepoSchema body = Joi.Valid value)
  (Hup : upstream value = Rejected (Some (403%Z, data)))
  (Hmsg : get data "message" = Normal (Some m)) :
  (forall any,
     result (list_repos (Rejected (Some (403%Z, any)))) =
     Responded
       {| status := 403;
          body := JObj
            [ ("error", JStr "Permission denied");
              ("message", JStr "Token does not have required permissions") ]
       |}) /\
  result (create_repo upstream body) =
    Responded
      {| status := 403;
         body := JObj [("error", JStr "GitHub API error"); ("message", m)] |}
  /\
  (forall st any, st <> 403%Z -> st <> 422%Z ->
     list_catch (AxiosError (Some (st, any))) =
     create_catch (AxiosError (Some (st, any)))).
Proof.
  split; [reflexivity|]. split.
  - unfold create_repo. rewrite Hvalid. cbn [result]. rewrite Hup.
    unfold try_catch, await, bind, create_catch, error_response.
    change (403 =? 401)%Z with false. change (403 =? 422)%Z with false.
    cbv iota. rewrite Hmsg. reflexivity.
  - intros st any H403 H422. unfold list_catch, create_catch, error_response.
    destruct (st =? 401)%Z; [reflexivity|].
    apply Z.eqb_neq in H403, H422. now rewrite H403, H422.
Qed.

Lemma forbidden_by_route_witness :
  result (list_repos (Rejected (Some (403%Z, JNull)))) =
    Responded
      {| status := 403;
         body := JObj
           [ ("error", JStr "Permission denied");
             ("message", JStr "Token does not have required permissions") ]
      |} /\
  result
    (create_repo
       (fun _ => Rejected
          (Some (403%Z, JObj [("message", JStr "Resource not accessible")])))
       (JObj [("name", JStr "repo")])) =
    Responded
      {| status := 403;
         body := JObj [ ("error", JStr "GitHub API error");
                        ("message", JStr "Resource not accessible") ] |} /\
  list_catch (AxiosError (Some (404%Z, JObj [("message", JStr "Not Found")])))
  = create_catch
      (AxiosError (Some (404%Z, JObj [("message", JStr "Not Found")]))).
Proof.
  destruct
    (forbidden_by_route
       (fun _ => Rejected
          (Some (403%Z, JObj [("message", JStr "Resource not accessible")])))
       (JObj [("name", JStr "repo")])
       (Some (JObj [ ("name", JStr "repo"); ("private", JBool false);
                     ("auto_init", JBool true) ]))
       (JObj [("message", JStr "Resource not accessible")])
       (JStr "Resource not accessible")
       eq_refl eq_refl eq_refl)
    as (Hlist & Hcreate & Hother).
  split; [apply Hlist|]. split; [exact Hcreate|].
  apply Hother; discriminate.
Defined.

(** C2, as the code has it: an extra field is not ignored.  A body that
    carries a top-level key its schema does not declare fails validation,
    whatever its other fields hold: the create route and the webhook route
    answer 400 with a non-empty error message, and no upstream call is
    made. *)
Theorem unknown_field_rejected
  (upstream : jsval -> axios_result)
  (create_body webhook_body : list (string * json)) (k1 k2 : string)
  (Hin1 : In k1 (keys create_body))
  (Hnew1 : mem k1 (declared createRepoSchema) = false)
  (Hin2 : In k2 (keys webhook_body))
  (Hnew2 : mem k2 (declared webhookSchema) = false) :
  (exists e,
     Joi.message e <> EmptyString /\
     create_repo upstream (JObj create_body) =
       {| calls := [];
          result := Responded
            {| status := 400;
               body := JObj [("error", JStr (Joi.message e))] |} |}) /\
  (exists e,
     Joi.message e <> EmptyString /\
     webhook (JObj webhook_body) =
       {| calls := [];
          result := Responded
            {| status := 400;
               body := JObj [("error", JStr (Joi.message e))] |} |}).
Proof.
  split.
  - destruct (unknown_key_invalid _ create_body k1 Hin1 Hnew1) as [e He].
    exists e. split; [apply message_nonempty|].
    now apply create_invalid_response.
  - destruct (unknown_key_invalid _ webhook_body k2 Hin2 Hnew2) as [e He].
    exists e. split; [apply message_nonempty|].
    now apply webhook_invalid_response.
Qed.

Lemma unknown_field_rejected_witness :
  (exists e,
     Joi.message e <> EmptyString /\
     create_repo (fun _ => Resolved JNull)
       (JObj [("name", JStr "repo"); ("homepage", JStr "https://x.test")]) =
       {| calls := [];
          result := Responded
            {| status := 400;
               body := JObj [("error", JStr (Joi.message e))] |} |}) /\
  (exists e,
     Joi.message e <> EmptyString /\
     webhook
       (JObj [ ("repository",
                 JObj [ ("name", JStr "r");
                        ("owner", JObj [("login", JStr "o")]) ]);
               ("action", JStr "opened");
               ("sender", JStr "someone") ]) =
       {| calls := [];
          result := Responded
            {| status := 400;
               body := JObj [("error", JStr (Joi.message e))] |} |}).
Proof.
  apply (unknown_field_rejected _ _ _ "homepage" "sender").
  - simpl. auto.
  - reflexivity.
  - simpl. auto.
  - reflexivity.
Defined.

(** C2, as stated, fails: a creation body and a webhook body that satisfy
    every constraint are rejected once they carry one more field. *)
Lemma extra_field_not_ignored :
  Joi.validate createRepoSchema (JObj [("name", JStr "repo")]) =
    Joi.Valid
      (Some (JObj [ ("name", JStr "repo"); ("private", JBool false);
                    ("auto_init", JBool true) ])) /\
  Joi.validate createRepoSchema
    (JObj [("name", JStr "repo"); ("homepage", JStr "https://x.test")]) =
    Joi.Invalid
      {| Joi.err_code := Joi.object_unknown; Joi.err_path := ["homepage"] |} /\
  result
    (webhook
       (JObj [ ("repository",
                 JObj [ ("name", JStr "r");
                        ("owner", JObj [("login", JStr "o")]) ]);
               ("action", JStr "opened");
               ("sender", JStr "someone") ])) =
    Responded
      {| status := 400;
         body := JObj
           [ ("error",
               JStr (Joi.message
                       {| Joi.err_code := Joi.object_unknown;
                          Joi.err_path := ["sender"] |})) ] |}.
Proof. repeat split. Qed.

(** C3, as the code has it.  For a creation body that passes validation, the
    value posted upstream is the normalized object [out], in which [private]
    is [false] and [auto_init] is [true] when the body omits them, a supplied
    boolean is kept as it is, and a supplied string that spells [true] or
    [false] in any letter case has become that boolean; no other value (a
    number, say) passes validation for these two fields. *)
Theorem boolean_fields_normalized
  (upstream : jsval -> axios_result) (body : json) (v : jsval)
  (Hvalid : Joi.validate createRepoSchema body = Joi.Valid v) :
  exists kvs out,
    body = JObj kvs /\ v = Some (JObj out) /\
    calls (create_repo upstream body) = [PostUserRepos (Some (JObj out))] /\
    normalized false (lookup "private" kvs) (lookup "private" out) /\
    normalized true (lookup "auto_init" kvs) (lookup "auto_init" out).
Proof.
  destruct (create_valid_object _ _ Hvalid) as [kvs ->].
  pose proof Hvalid as Hv.
  apply create_valid in Hv
    as (n & b1 & b2 & Hn & Hacc & Hd & Hp & Ha & Hu & ->).
  exists kvs. eexists. split; [reflexivity|]. split; [reflexivity|].
  split; [unfold create_repo; now rewrite Hvalid|].
  rewrite lookup_set_other by reflexivity.
  rewrite !lookup_set_same.
  split; now apply field_boolean_normalized.
Qed.

Lemma boolean_fields_normalized_witness :
  exists kvs out,
    JObj [("name", JStr "repo")] = JObj kvs /\
    Some (JObj [ ("name", JStr "repo"); ("private", JBool false);
                 ("auto_init", JBool true) ]) = Some (JObj out) /\
    calls (create_repo (fun _ => Resolved JNull)
             (JObj [("name", JStr "repo")])) =
      [PostUserRepos (Some (JObj out))] /\
    normalized false (lookup "private" kvs) (lookup "private" out) /\
    normalized true (lookup "auto_init" kvs) (lookup "auto_init" out).
Proof.
  apply (boolean_fields_normalized (fun _ => Resolved JNull)
           (JObj [("name", JStr "repo")])).
  reflexivity.
Defined.

(** C3, as stated, fails: [private] supplied as the string [true] passes
    validation and reaches the normalized value as the boolean [true], not as
    the string that was supplied. *)
Lemma string_boolean_coerced :
  Joi.validate createRepoSchema
    (JObj [("name", JStr "repo"); ("private", JStr "true")]) =
    Joi.Valid
      (Some (JObj [ ("name", JStr "repo"); ("private", JBool true);
                    ("auto_init", JBool true) ])) /\
  JBool true <> JStr "true".
Proof. split; [reflexivity | discriminate]. Qed.

(** C4. An upstream 422 on the create route, for a body that passed
    validation, is answered with 422, error [Validation failed] and the
    message [m] that upstream supplied, unchanged. *)
Theorem upstream_validation_failure
  (upstream : jsval -> axios_result) (body : json) (value : jsval)
  (data m : json)
  (Hvalid : Joi.validate createRepoSchema body = Joi.Valid value)
  (Hup : upstream value = Rejected (Some (422%Z, data)))
  (Hmsg : get data "message" = Normal (Some m)) :
  result (create_repo upstream body) =
    Responded
      {| status := 422;
         body := JObj [("error", JStr "Validation failed"); ("message", m)] |}.
Proof.
  unfold create_repo. rewrite Hvalid. cbn [result]. rewrite Hup.
  unfold try_catch, await, bind, create_catch, error_response.
  change (422 =? 401)%Z with false. change (422 =? 422)%Z with true.
  cbv iota. rewrite Hmsg. reflexivity.
Qed.

Lemma upstream_validation_failure_witness :
  result
    (create_repo
       (fun _ => Rejected
          (Some (422%Z, JObj [("message", JStr "name already exists")])))
       (JObj [("name", JStr "repo")])) =
    Responded
      {| status := 422;
         body := JObj [ ("error", JStr "Validation failed");
                        ("message", JStr "name already exists") ] |}.
Proof.
  apply (upstream_validation_failure _ _
           (Some (JObj [ ("name", JStr "repo"); ("private", JBool false);
                         ("auto_init", JBool true) ]))
           (JObj [("message", JStr "name already exists")]));
    reflexivity.
Defined.

(** C5. When no response is received from upstream, the list route answers
    500 with [Failed to fetch repositories] and the create route, for a body
    that passed validation, answers 500 with [Failed to create repository];
    both carry the error [Internal server error]. *)
Theorem transport_failure
  (upstream : jsval -> axios_result) (body : json) (value : jsval)
  (Hvalid : Joi.validate createRepoSchema body = Joi.Valid value)
  (Hup : upstream value = Rejected None) :
  result (list_repos (Rejected None)) =
    Responded
      {| status := 500;
         body := JObj [ ("error", JStr "Internal server error");
                        ("message", JStr "Failed to fetch repositories") ] |}
  /\
  result (create_repo upstream body) =
    Responded
      {| status := 500;
         body := JObj [ ("error", JStr "Internal server error");
                        ("message", JStr "Failed to create repository") ] |}.
Proof.
  split; [reflexivity|].
  unfold create_repo. rewrite Hvalid. cbn [result]. now rewrite Hup.
Qed.

Lemma transport_failure_witness :
  result (list_repos (Rejected None)) =
    Responded
      {| status := 500;
         body := JObj [ ("error", JStr "Internal server error");
                        ("message", JStr "Failed to fetch repositories") ] |}
  /\
  result (create_repo (fun _ => Rejected None)
            (JObj [("name", JStr "repo")])) =
    Responded
      {| status := 500;
         body := JObj [ ("error", JStr "Internal server error");
                        ("message", JStr "Failed to create repository") ] |}.
Proof.
  apply (transport_failure _ _
           (Some (JObj [ ("name", JStr "repo"); ("private", JBool false);
                         ("auto_init", JBool true) ])));
    reflexivity.
Defined.

(** C6, as the code has it.  The module body issues one credential check and
    starts listening without waiting for it.  Whatever arrives first, the
    check is issued once.  When the check settles with a 401 after [n]
    requests, the process exits with code 1 and accepts nothing more: the
    [n] earlier requests were accepted.  When it settles in any other way
    the process keeps listening, every request before and after is accepted,
    and a failure is only logged. *)
Theorem startup_guard (n : nat) (r : axios_result) (later : list event) :
  let p := run_events (repeat Request n ++ Settled r :: later) in
  issued p = [GetUser] /\
  if unauthorized r then
    exited p = Some 1%Z /\ listening p = false /\ accepted p = n
  else
    exited p = None /\ listening p = true /\
    accepted p = (n + requests later)%nat /\
    match r with
    | Resolved _ => log p = [Info "GitHub token validated successfully"]
    | Rejected _ => log p = [Error "GitHub token validation failed:"]
    end.
Proof.
  intros p. unfold p. rewrite run_app, run_requests. cbn [fold_left].
  change (step (waiting n) (Settled r))
    with (validateGitHubToken r (waiting n)).
  destruct r as [data|[[st data]|]];
    cbn [unauthorized validateGitHubToken waiting issued exited listening
         log accepted app].
  - after_settlement later. auto.
  - destruct (st =? 401)%Z.
    + erewrite exited_stays by reflexivity. auto.
    + after_settlement later. auto.
  - after_settlement later. auto.
Qed.

(** C6, as stated, fails: with a credential that upstream rejects with 401,
    a request that arrives before the rejection is accepted, and the process
    exits only afterwards. *)
Lemma traffic_before_exit :
  accepted (run_events [Request]) = 1%nat /\
  exited (run_events [Request]) = None /\
  exited
    (run_events [Request; Settled (Rejected (Some (401%Z, JNull)))])
  = Some 1%Z /\
  accepted
    (run_events [Request; Settled (Rejected (Some (401%Z, JNull)))])
  = 1%nat.
Proof. repeat split. Qed.

(** C7, as the code has it.  For an upstream list of [N] raw repositories
    the answer is 200 with an array of [N] elements.  Each element holds,
    in the order of the eleven summary fields, those of them that the raw
    repository has, with the value of the raw repository, [null] included;
    a field absent from the raw repository is absent from the element, and
    the element has exactly the eleven fields when the raw repository has
    them all.  No input of this shape makes the mapping throw. *)
Theorem list_projection (raws : list (list (string * json))) :
  let elements := map (project summary_fields) raws in
  result (list_repos (Resolved (JArr (map JObj raws)))) =
    Responded {| status := 200; body := JArr (map JObj elements) |} /\
  List.length elements = List.length raws /\
  Forall2
    (fun kvs element =>
       keys element = filter (fun k => mem k (keys kvs)) summary_fields /\
       (forall k, In k summary_fields -> lookup k element = lookup k kvs) /\
       (incl summary_fields (keys kvs) -> keys element = summary_fields))
    raws elements.
Proof.
  intros elements. split; [|split].
  - unfold list_repos, try_catch, await, array_map. cbn [result bind].
    rewrite map_items_summary. cbn [bind]. unfold elements, project.
    now rewrite !map_map.
  - unfold elements. apply length_map.
  - unfold elements. induction raws as [|kvs rest IH]; constructor; auto.
    split; [apply keys_project|]. split.
    + intros k Hk. rewrite lookup_project.
      apply mem_In in Hk. now rewrite Hk.
    + intros Hincl. rewrite keys_project. apply filter_all.
      intros k Hk. apply mem_In. now apply Hincl.
Qed.

(** C7, as stated, fails: a raw repository that has only [id] is answered
    with an element that has only [id], not the eleven fields. *)
Lemma list_omits_absent_fields :
  result (list_repos (Resolved (JArr [JObj [("id", JNum 1)]]))) =
    Responded {| status := 200; body := JArr [JObj [("id", JNum 1)]] |} /\
  keys [("id", JNum 1)] <> summary_fields.
Proof. split; [reflexivity | discriminate]. Qed.

(** C8. Normalization is idempotent: when a creation body passes validation
    with the normalized value [out], validating [out] succeeds and returns
    [out] again. *)
Theorem normalization_idempotent (body : json) (v : jsval)
  (Hvalid : Joi.validate createRepoSchema body = Joi.Valid v) :
  exists out, v = Some out /\
    Joi.validate createRepoSchema out = Joi.Valid (Some out).
Proof.
  destruct (create_valid_object _ _ Hvalid) as [kvs ->].
  apply create_valid in Hvalid
    as (n & b1 & b2 & Hn & Hacc & Hd & Hp & Ha & Hu & ->).
  eexists. split; [reflexivity|].
  set (out := set_prop "auto_init" (JBool b2)
                (set_prop "private" (JBool b1) kvs)).
  assert (Hp' : lookup "private" out = Some (JBool b1)).
  { unfold out. rewrite lookup_set_other by reflexivity.
    apply lookup_set_same. }
  assert (Ha' : lookup "auto_init" out = Some (JBool b2)).
  { unfold out. apply lookup_set_same. }
  apply create_valid. exists n, b1, b2.
  repeat split.
  - unfold out. now rewrite !lookup_set_other by reflexivity.
  - exact Hacc.
  - unfold out. now rewrite !lookup_set_other by reflexivity.
  - now rewrite Hp'.
  - now rewrite Ha'.
  - unfold out. now rewrite !unprocessed_set by reflexivity.
  - now rewrite (set_prop_same _ _ _ Hp'), (set_prop_same _ _ _ Ha').
Qed.

Lemma normalization_idempotent_witness :
  exists out,
    Some (JObj [ ("name", JStr "repo"); ("private", JBool true);
                 ("auto_init", JBool true) ]) = Some out /\
    Joi.validate createRepoSchema out = Joi.Valid (Some out).
Proof.
  apply (normalization_idempotent
           (JObj [("name", JStr "repo"); ("private", JStr "TRUE")])).
  reflexivity.
Defined.

(** C9, as the code has it.  A webhook body without [action] is answered
    with 400 and a non-empty error message.  A body in which
    [repository.name], [repository.owner.login] and [action] are strings
    that are not empty, and which carries no other key at any of the three
    levels, is answered with 200 and the fixed acknowledgement, whatever the
    three strings are; no upstream call is made in either case. *)
Theorem webhook_acknowledged
  (missing : json) (kvs : list (string * json))
  (Hmissing : has_prop "action" missing = false)
  (Hok : webhook_ok kvs) :
  (exists e,
     Joi.message e <> EmptyString /\
     webhook missing =
       {| calls := [];
          result := Responded
            {| status := 400;
               body := JObj [("error", JStr (Joi.message e))] |} |}) /\
  webhook (JObj kvs) =
    {| calls := [];
       result := Responded
         {| status := 200;
            body := JObj [("message", JStr "Webhook received")] |} |}.
Proof.
  split.
  - destruct (Joi.validate webhookSchema missing) as [v|e] eqn:Hv.
    + exfalso. apply webhook_valid in Hv as (k & -> & _ & Hk).
      destruct Hk as (r & o & n & l & a & _ & _ & _ & _ & _ & _ & Ha & _).
      simpl in Hmissing. now rewrite Ha in Hmissing.
    + exists e. split; [apply message_nonempty|].
      now apply webhook_invalid_response.
  - assert (Hv : Joi.validate webhookSchema (JObj kvs)
                 = Joi.Valid (Some (JObj kvs))).
    { apply webhook_valid. eauto. }
    unfold webhook. now rewrite Hv.
Qed.

Lemma webhook_acknowledged_witness :
  (exists e,
     Joi.message e <> EmptyString /\
     webhook (JObj [("repository",
                      JObj [("name", JStr "r");
                            ("owner", JObj [("login", JStr "o")])])]) =
       {| calls := [];
          result := Responded
            {| status := 400;
               body := JObj [("error", JStr (Joi.message e))] |} |}) /\
  webhook (JObj [("repository",
                   JObj [("name", JStr "r");
                         ("owner", JObj [("login", JStr "o")])]);
                 ("action", JStr "opened")]) =
    {| calls := [];
       result := Responded
         {| status := 200;
            body := JObj [("message", JStr "Webhook received")] |} |}.
Proof.
  apply webhook_acknowledged.
  - reflexivity.
  - exists [("name", JStr "r"); ("owner", JObj [("login", JStr "o")])],
      [("login", JStr "o")], "r", "o", "opened".
    repeat split; try reflexivity; discriminate.
Defined.

(** C9, as stated, fails: with the three required fields present as
    strings, an empty [action] is answered with 400. *)
Lemma webhook_empty_string_rejected :
  webhook (JObj [("repository",
                   JObj [("name", JStr "r");
                         ("owner", JObj [("login", JStr "o")])]);
                 ("action", JStr EmptyString)]) =
    {| calls := [];
       result := Responded
         {| status := 400;
            body := JObj [("error",
              JStr (Joi.message {| Joi.err_code := Joi.string_empty;
                                   Joi.err_path := ["action"] |}))] |} |}.
Proof. reflexivity. Qed.

(** C10. A creation body whose [description] is the empty string fails
    validation: the route answers 400 with a non-empty error message and
    makes no upstream call, whatever the other fields hold, valid ones
    included. *)
Theorem empty_description_rejected
  (upstream : jsval -> axios_result) (kvs : list (string * json))
  (Hd : lookup "description" kvs = Some (JStr EmptyString)) :
  exists e,
    Joi.message e <> EmptyString /\
    create_repo upstream (JObj kvs) =
      {| calls := [];
         result := Responded
           {| status := 400;
              body := JObj [("error", JStr (Joi.message e))] |} |}.
Proof.
  destruct (Joi.validate createRepoSchema (JObj kvs)) as [v|e] eqn:Hv.
  - apply create_valid in Hv as (n & b1 & b2 & _ & _ & Hdok & _).
    rewrite Hd in Hdok. discriminate.
  - exists e. split; [apply message_nonempty|].
    now apply create_invalid_response.
Qed.

Lemma empty_description_rejected_witness :
  exists e,
    Joi.message e <> EmptyString /\
    create_repo (fun _ => Resolved JNull)
      (JObj [ ("name", JStr "repo"); ("description", JStr EmptyString);
              ("private", JBool false); ("auto_init", JBool true) ]) =
      {| calls := [];
         result := Responded
           {| status := 400;
              body := JObj [("error", JStr (Joi.message e))] |} |}.
Proof.
  apply (empty_description_rejected (fun _ => Resolved JNull)
           [ ("name", JStr "repo"); ("description", JStr EmptyString);
             ("private", JBool false); ("auto_init", JBool true) ]).
  reflexivity.
Defined.

(** * Further properties of the handlers *)

(** X1. An upstream 401 is answered in the same way by both repo routes:
    401 with the fixed authentication message.  The upstream body is not
    read, so this holds whatever it is, [null] included. *)
Theorem unauthorized_answer
  (upstream : jsval -> axios_result) (body : json) (value : jsval)
  (data : json)
  (Hvalid : Joi.validate createRepoSchema body = Joi.Valid value)
  (Hup : upstream value = Rejected (Some (401%Z, data))) :
  (forall any,
     result (list_repos (Rejected (Some (401%Z, any)))) =
     Responded
       {| status := 401;
          body := JObj [ ("error", JStr "Authentication failed");
                         ("message", JStr "Invalid or expired GitHub token") ]
       |}) /\
  result (create_repo upstream body) =
    Responded
      {| status := 401;
         body := JObj [ ("error", JStr "Authentication failed");
                        ("message", JStr "Invalid or expired GitHub token") ]
      |}.
Proof.
  split; [reflexivity|].
  unfold create_repo. rewrite Hvalid. cbn [result]. now rewrite Hup.
Qed.

Lemma unauthorized_answer_witness :
  (forall any,
     result (list_repos (Rejected (Some (401%Z, any)))) =
     Responded
       {| status := 401;
          body := JObj [ ("error", JStr "Authentication failed");
                         ("message", JStr "Invalid or expired GitHub token") ]
       |}) /\
  result (create_repo (fun _ => Rejected (Some (401%Z, JNull)))
            (JObj [("name", JStr "repo")])) =
    Responded
      {| status := 401;
         body := JObj [ ("error", JStr "Authentication failed");
                        ("message", JStr "Invalid or expired GitHub token") ]
      |}.
Proof.
  apply (unauthorized_answer _ _
           (Some (JObj [ ("name", JStr "repo"); ("private", JBool false);
                         ("auto_init", JBool true) ])) JNull);
    reflexivity.
Defined.

(** X2. An upstream failure with a status outside the special rows (401
    and 403 on the list route, 401 and 422 on the create route) and a body
    that is not [null] is answered with the same status, the error
    [GitHub API error], and the upstream message when the body has one; the
    [message] key is left out when it has none. *)
Theorem other_status_passed_through
  (lst : Z) (ldata : json)
  (upstream : jsval -> axios_result) (body : json) (value : jsval)
  (cst : Z) (cdata : json)
  (Hl401 : lst <> 401%Z) (Hl403 : lst <> 403%Z) (Hldata : ldata <> JNull)
  (Hvalid : Joi.validate createRepoSchema body = Joi.Valid value)
  (Hup : upstream value = Rejected (Some (cst, cdata)))
  (Hc401 : cst <> 401%Z) (Hc422 : cst <> 422%Z) (Hcdata : cdata <> JNull) :
  result (list_repos (Rejected (Some (lst, ldata)))) =
    Responded
      {| status := lst;
         body := JObj (("error", JStr "GitHub API error")
                         :: message_part ldata) |} /\
  result (create_repo upstream body) =
    Responded
      {| status := cst;
         body := JObj (("error", JStr "GitHub API error")
                         :: message_part cdata) |}.
Proof.
  apply Z.eqb_neq in Hl401, Hl403, Hc401, Hc422. split.
  - unfold list_repos, try_catch, await, list_catch, error_response.
    cbn [result bind]. rewrite Hl401, Hl403.
    now rewrite generic_answer.
  - unfold create_repo. rewrite Hvalid. cbn [result]. rewrite Hup.
    unfold try_catch, await, create_catch, error_response.
    cbn [bind]. rewrite Hc401, Hc422.
    now rewrite generic_answer.
Qed.

Lemma other_status_passed_through_witness :
  result (list_repos
            (Rejected (Some (404%Z, JObj [("message", JStr "Not Found")]))))
  = Responded
      {| status := 404;
         body := JObj [ ("error", JStr "GitHub API error");
                        ("message", JStr "Not Found") ] |} /\
  result (create_repo (fun _ => Rejected (Some (503%Z, JStr "unavailable")))
            (JObj [("name", JStr "repo")]))
  = Responded
      {| status := 503; body := JObj [("error", JStr "GitHub API error")] |}.
Proof.
  apply (other_status_passed_through
           404 (JObj [("message", JStr "Not Found")])
           (fun _ => Rejected (Some (503%Z, JStr "unavailable")))
           (JObj [("name", JStr "repo")])
           (Some (JObj [ ("name", JStr "repo"); ("private", JBool false);
                         ("auto_init", JBool true) ]))
           503 (JStr "unavailable"));
    (reflexivity || discriminate).
Defined.

(** X3. The list handler leaves a request without an answer in one case
    only: upstream failed with a status other than 401 and 403 and a [null]
    body, which makes the [catch] block throw while it reads the message. *)
Theorem list_unanswered_iff (up : axios_result) :
  result (list_repos up) = Unhandled <->
  exists st, up = Rejected (Some (st, JNull)) /\
             st <> 401%Z /\ st <> 403%Z.
Proof.
  split.
  - destruct up as [data|[[st data]|]].
    + destruct (list_resolved_responds data) as [r ->]. discriminate.
    + unfold list_repos, try_catch, await, list_catch, error_response.
      cbn [result bind].
      destruct (st =? 401)%Z eqn:E1; [discriminate|].
      destruct (st =? 403)%Z eqn:E3; [discriminate|].
      apply Z.eqb_neq in E1, E3.
      destruct data; try discriminate. eauto.
    + discriminate.
  - intros (st & -> & H1 & H3). apply Z.eqb_neq in H1, H3.
    unfold list_repos, try_catch, await, list_catch, error_response.
    cbn [result bind]. now rewrite H1, H3.
Qed.

(** X4. The create handler leaves a request without an answer in one case
    only: the body passed validation and upstream failed with a status other
    than 401 and a [null] body (422 included). *)
Theorem create_unanswered_iff
  (upstream : jsval -> axios_result) (body : json) :
  result (create_repo upstream body) = Unhandled <->
  exists value st,
    Joi.validate createRepoSchema body = Joi.Valid value /\
    upstream value = Rejected (Some (st, JNull)) /\ st <> 401%Z.
Proof.
  unfold create_repo.
  destruct (Joi.validate createRepoSchema body) as [value|e] eqn:Hv;
    cbn [result].
  2:{ split; [discriminate | intros (v & st & C & _); discriminate]. }
  split.
  - destruct (upstream value) as [data|[[st data]|]] eqn:Hup.
    + unfold try_catch, await. cbn [bind].
      destruct data; discriminate.
    + unfold try_catch, await, create_catch, error_response. cbn [bind].
      destruct (st =? 401)%Z eqn:E1; [discriminate|].
      apply Z.eqb_neq in E1.
      destruct (st =? 422)%Z; destruct data; try discriminate;
        intros _; exists value, st; auto.
    + discriminate.
  - intros (v & st & Hv' & Hup & H1). inversion Hv'; subst v.
    rewrite Hup. apply Z.eqb_neq in H1.
    unfold try_catch, await, create_catch, error_response. cbn [bind].
    rewrite H1. now destruct (st =? 422)%Z.
Qed.

(** X5. What the list route makes of a successful upstream call.  Data
    that is an array without [null] elements is answered with 200 and one
    element per item, holding the summary fields the item has (none for an
    item that is not an object).  Any other data, not an array or an array
    holding a [null], is answered like a transport failure: 500 with
    [Failed to fetch repositories]. *)
Theorem list_success_answer (data : json) :
  result (list_repos (Resolved data)) =
  match repository_list data with
  | Some items =>
      Responded
        {| status := 200;
           body := JArr (map (fun raw =>
                                JObj (project summary_fields (props raw)))
                             items) |}
  | None =>
      Responded
        {| status := 500;
           body := JObj [ ("error", JStr "Internal server error");
                          ("message", JStr "Failed to fetch repositories") ]
        |}
  end.
Proof.
  unfold list_repos, try_catch, await. cbn [result bind].
  destruct data as [| | | |items|]; try reflexivity.
  unfold repository_list, array_map.
  destruct (existsb is_null items) eqn:Hn.
  - destruct (map_items_null items Hn) as (e & -> & Hr). cbn [bind].
    unfold list_catch. now rewrite Hr.
  - rewrite (map_items_some items Hn). cbn [bind].
    unfold project. now rewrite !map_map.
Qed.



(** X7. The creation bodies that pass validation are exactly the objects
    with a [name] of 1 to 100 characters, a [description] that is absent or
    has 1 to 1000 characters, [private] and [auto_init] each absent, a
    boolean or a string spelling one, and no other key; the normalized value
    is the body with [private] and [auto_init] set to their booleans. *)
Theorem creation_body_accepted_iff (body : json) (v : jsval) :
  Joi.validate createRepoSchema body = Joi.Valid v <->
  exists kvs n b1 b2,
    body = JObj kvs /\
    lookup "name" kvs = Some (JStr n) /\
    (1 <= String.length n <= 100)%nat /\
    description_within (lookup "description" kvs) /\
    field_boolean false (lookup "private" kvs) = Some b1 /\
    field_boolean true (lookup "auto_init" kvs) = Some b2 /\
    (forall k, In k (keys kvs) -> In k create_keys) /\
    v = Some (JObj (set_prop "auto_init" (JBool b2)
                     (set_prop "private" (JBool b1) kvs))).
Proof.
  split.
  - intros H. destruct (create_valid_object _ _ H) as [kvs ->].
    apply create_valid in H as (n & b1 & b2 & Hn & Hacc & Hd & Hp & Ha & Hu & ->).
    exists kvs, n, b1, b2.
    rewrite accepts_name in Hacc. rewrite description_ok_within in Hd.
    rewrite unprocessed_nil in Hu. auto 10.
  - intros (kvs & n & b1 & b2 & -> & Hn & Hlen & Hd & Hp & Ha & Hu & ->).
    apply create_valid. exists n, b1, b2.
    rewrite accepts_name, description_ok_within, unprocessed_nil. auto 10.
Qed.

(** X8. What upstream can receive from the create route.  Whenever a call
    is made it is the only one, and its payload is an object with the
    [name] and [description] of the body, unchanged (nothing is trimmed), a
    [name] of 1 to 100 characters, booleans for [private] and [auto_init],
    and no key beyond the four declared ones. *)
Theorem posted_payload_well_formed
  (upstream : jsval -> axios_result) (body : json) (c : call)
  (Hc : In c (calls (create_repo upstream body))) :
  exists out n b1 b2,
    calls (create_repo upstream body) = [PostUserRepos (Some (JObj out))] /\
    lookup "name" out = Some (JStr n) /\
    (1 <= String.length n <= 100)%nat /\
    lookup "name" out = lookup "name" (props body) /\
    lookup "description" out = lookup "description" (props body) /\
    description_within (lookup "description" out) /\
    lookup "private" out = Some (JBool b1) /\
    lookup "auto_init" out = Some (JBool b2) /\
    (forall k, In k (keys out) -> In k create_keys).
Proof.
  unfold create_repo in *.
  destruct (Joi.validate createRepoSchema body) as [v|e] eqn:Hv;
    [|destruct Hc].
  destruct (create_valid_object _ _ Hv) as [kvs ->].
  apply create_valid in Hv as (n & b1 & b2 & Hn & Hacc & Hd & Hp & Ha & Hu & ->).
  do 4 eexists. split; [reflexivity|]. cbn [props].
  rewrite !(lookup_set_other "auto_init") by reflexivity.
  rewrite !(lookup_set_other "private") by reflexivity.
  rewrite !lookup_set_same.
  rewrite accepts_name in Hacc. rewrite description_ok_within in Hd.
  rewrite unprocessed_nil in Hu.
  repeat split; eauto; try lia.
  intros k Hk.
  apply keys_set_prop in Hk as [->|Hk]; [simpl; auto|].
  apply keys_set_prop in Hk as [->|Hk]; [simpl; auto|]. auto.
Qed.

Lemma posted_payload_well_formed_witness :
  exists out n b1 b2,
    calls (create_repo (fun _ => Rejected None)
             (JObj [("name", JStr " "); ("private", JStr "True")])) =
      [PostUserRepos (Some (JObj out))] /\
    lookup "name" out = Some (JStr n) /\
    (1 <= String.length n <= 100)%nat /\
    lookup "name" out =
      lookup "name" (props (JObj [("name", JStr " ");
                                  ("private", JStr "True")])) /\
    lookup "description" out =
      lookup "description" (props (JObj [("name", JStr " ");
                                         ("private", JStr "True")])) /\
    description_within (lookup "description" out) /\
    lookup "private" out = Some (JBool b1) /\
    lookup "auto_init" out = Some (JBool b2) /\
    (forall k, In k (keys out) -> In k create_keys).
Proof.
  apply (posted_payload_well_formed (fun _ => Rejected None)
           (JObj [("name", JStr " "); ("private", JStr "True")])
           (PostUserRepos
              (Some (JObj [ ("name", JStr " "); ("private", JBool true);
                            ("auto_init", JBool true) ])))).
  simpl. auto.
Defined.

(** X9. An error of [name] is reported before anything else.  When [name]
    is missing, not a string, empty or longer than 100 characters, the
    create route answers 400 with the message of that error and makes no
    upstream call, whatever the rest of the body holds. *)
Theorem name_error_first
  (upstream : jsval -> axios_result) (kvs : list (string * json))
  (c : Joi.code)
  (Hname : name_error (lookup "name" kvs) = Some c) :
  create_repo upstream (JObj kvs) =
  {| calls := [];
     result := Responded
       {| status := 400;
          body := JObj
            [ ("error",
                JStr (Joi.message {| Joi.err_code := c;
                                     Joi.err_path := ["name"] |})) ] |} |}.
Proof.
  apply create_invalid_response.
  unfold Joi.validate. rewrite createRepoSchema_eq, validate_object, each_cons.
  unfold name_error in Hname.
  destruct (lookup "name" kvs) as [[| | |s| |]|];
    try (inversion Hname; reflexivity).
  destruct s as [|ch s]; [inversion Hname; reflexivity|].
  cbn [Joi.is_empty] in Hname.
  destruct (Nat.ltb 100 (String.length (String ch s))) eqn:E;
    [|discriminate].
  inversion Hname; subst c. apply Nat.ltb_lt in E.
  cbn -[Nat.leb].
  assert (Nat.leb 1 (S (String.length s)) = true) as -> by reflexivity.
  assert (Nat.leb (S (String.length s)) 100 = false) as ->
      by (apply Nat.leb_gt; simpl in E; lia).
  reflexivity.
Qed.

Lemma name_error_first_witness :
  create_repo (fun _ => Resolved JNull)
    (JObj [("description", JStr EmptyString); ("homepage", JNum 1)]) =
  {| calls := [];
     result := Responded
       {| status := 400;
          body := JObj
            [ ("error",
                JStr (Joi.message {| Joi.err_code := Joi.any_required;
                                     Joi.err_path := ["name"] |})) ] |} |}.
Proof.
  apply (name_error_first (fun _ => Resolved JNull)
           [("description", JStr EmptyString); ("homepage", JNum 1)]).
  reflexivity.
Defined.

(** X10. The errors a creation body can be rejected with: one of the ten
    in [create_errors], or an undeclared key of the body.  The rule [min(1)]
    of [name] is never the one reported, because an empty string is refused
    before the rules run. *)
Theorem creation_errors_enumerated (body : json) (e : Joi.error)
  (Hinvalid : Joi.validate createRepoSchema body = Joi.Invalid e) :
  (In (Joi.err_code e, Joi.err_path e) create_errors \/
   exists k,
     e = {| Joi.err_code := Joi.object_unknown; Joi.err_path := [k] |} /\
     In k (keys (props body)) /\ ~ In k create_keys) /\
  forall n, Joi.err_code e <> Joi.string_min n.
Proof.
  assert (Hmain :
    In (Joi.err_code e, Joi.err_path e) create_errors \/
    exists k,
      e = {| Joi.err_code := Joi.object_unknown; Joi.err_path := [k] |} /\
      In k (keys (props body)) /\ ~ In k create_keys).
  { destruct body as [| | | | |kvs];
      try (inversion Hinvalid; left; simpl; tauto).
    unfold Joi.validate in Hinvalid.
    rewrite createRepoSchema_eq, validate_object, each_cons in Hinvalid.
    destruct (Joi.validate_at _ ([] ++ ["name"]) (lookup "name" kvs))
      as [r1|e1] eqn:H1.
    2:{ inversion Hinvalid; subst e1.
        apply name_invalid in H1 as [Hp Hc]. left.
        destruct e as [c p]. simpl in Hp, Hc |- *. subst p.
        repeat (destruct Hc as [<-|Hc]; [auto 12|]). contradiction. }
    apply string_valid in H1 as [-> H1].
    destruct (lookup "name" kvs) as [[| | |n| |]|] eqn:Hn;
      try contradiction; try discriminate.
    rewrite (set_prop_same _ _ _ Hn), each_cons in Hinvalid.
    destruct (Joi.validate_at _ ([] ++ ["description"])
                (lookup "description" kvs)) as [r2|e2] eqn:H2.
    2:{ inversion Hinvalid; subst e2.
        apply description_invalid in H2 as [Hp Hc]. left.
        destruct e as [c p]. simpl in Hp, Hc |- *. subst p.
        repeat (destruct Hc as [<-|Hc]; [auto 12|]). contradiction. }
    apply string_valid in H2 as [-> H2].
    assert (Hrest :
      Joi.each
        (fun key child item => Joi.validate_at child ([] ++ [key]) item)
        (Joi.leftover create_keys [] kvs)
        [ ("private", Joi.Boolean_ Joi.Optional (Some false));
          ("auto_init", Joi.Boolean_ Joi.Optional (Some true)) ] kvs
      = Joi.Invalid e).
    { destruct (lookup "description" kvs) as [d|] eqn:Hd;
        [rewrite (set_prop_same _ _ _ Hd) in Hinvalid|]; exact Hinvalid. }
    clear Hinvalid H2. rewrite each_cons in Hrest.
    destruct (Joi.validate_at _ ([] ++ ["private"]) (lookup "private" kvs))
      as [r3|e3] eqn:H3.
    2:{ inversion Hrest; subst e3. apply boolean_invalid in H3 as ->.
        left. simpl. tauto. }
    apply boolean_default_valid in H3 as (b1 & Hb1 & ->).
    rewrite each_cons in Hrest.
    rewrite (lookup_set_other "private" "auto_init") in Hrest by reflexivity.
    destruct (Joi.validate_at _ ([] ++ ["auto_init"])
                (lookup "auto_init" kvs)) as [r4|e4] eqn:H4.
    2:{ inversion Hrest; subst e4. apply boolean_invalid in H4 as ->.
        left. simpl. tauto. }
    apply boolean_default_valid in H4 as (b2 & Hb2 & ->).
    rewrite each_nil in Hrest. unfold Joi.leftover in Hrest.
    destruct (Joi.unprocessed create_keys kvs) as [|k ks] eqn:Hu;
      [discriminate|].
    inversion Hrest. right. exists k. split; [reflexivity|].
    assert (Hin : In k (Joi.unprocessed create_keys kvs))
      by (rewrite Hu; now left).
    unfold Joi.unprocessed in Hin. apply filter_In in Hin as [Hk Hm].
    split; [exact Hk|]. intros C. apply mem_In in C.
    rewrite C in Hm. discriminate. }
  split; [exact Hmain|].
  intros n C. destruct Hmain as [H|(k & -> & _)]; [|discriminate].
  rewrite C in H. simpl in H.
  repeat (destruct H as [H|H]; [discriminate|]). exact H.
Qed.

Lemma creation_errors_enumerated_witness :
  (In (Joi.string_empty, ["name"]) create_errors \/
   exists k,
     {| Joi.err_code := Joi.string_empty; Joi.err_path := ["name"] |} =
     {| Joi.err_code := Joi.object_unknown; Joi.err_path := [k] |} /\
     In k (keys (props (JObj [("name", JStr EmptyString)]))) /\
     ~ In k create_keys) /\
  forall n, Joi.string_empty <> Joi.string_min n.
Proof.
  apply (creation_errors_enumerated
           (JObj [("name", JStr EmptyString)])
           {| Joi.err_code := Joi.string_empty; Joi.err_path := ["name"] |}).
  reflexivity.
Defined.

(** X11. The webhook route never calls upstream and has two answers: 200
    with the acknowledgement exactly for the bodies described by
    [webhook_ok], and 400 with a validation message for every other body. *)
Theorem webhook_answer (body : json) :
  calls (webhook body) = [] /\
  ((exists kvs, body = JObj kvs /\ webhook_ok kvs) /\
   result (webhook body) =
     Responded
       {| status := 200;
          body := JObj [("message", JStr "Webhook received")] |}
   \/
   ~ (exists kvs, body = JObj kvs /\ webhook_ok kvs) /\
   exists e,
     result (webhook body) =
       Responded
         {| status := 400;
            body := JObj [("error", JStr (Joi.message e))] |}).
Proof.
  unfold webhook.
  destruct (Joi.validate webhookSchema body) as [v|e] eqn:Hv;
    cbn [calls result]; (split; [reflexivity|]).
  - left. apply webhook_valid in Hv as (kvs & -> & _ & Hok).
    split; [eauto | reflexivity].
  - right. split; [|exists e; reflexivity].
    intros (kvs & -> & Hok).
    assert (Joi.validate webhookSchema (JObj kvs)
            = Joi.Valid (Some (JObj kvs))) as C
      by (apply webhook_valid; eauto).
    congruence.
Qed.

(** X12. A webhook body that is an object without [repository] is answered
    400 with the message that [repository] is required, whatever else it
    holds; the body of the repository's own test is an instance. *)
Theorem webhook_without_repository
  (kvs : list (string * json))
  (Hmissing : lookup "repository" kvs = None) :
  webhook (JObj kvs) =
  {| calls := [];
     result := Responded
       {| status := 400;
          body := JObj
            [ ("error",
                JStr (Joi.dquote ++ "repository" ++ Joi.dquote
                        ++ " is required")) ] |} |}.
Proof.
  assert (Hv : Joi.validate webhookSchema (JObj kvs) =
               Joi.Invalid {| Joi.err_code := Joi.any_required;
                              Joi.err_path := ["repository"] |}).
  { unfold Joi.validate.
    rewrite webhookSchema_eq, validate_object, each_cons, Hmissing.
    reflexivity. }
  rewrite (webhook_invalid_response _ _ Hv). reflexivity.
Qed.

Lemma webhook_without_repository_witness :
  webhook (JObj [("invalid", JStr "data")]) =
  {| calls := [];
     result := Responded
       {| status := 400;
          body := JObj
            [ ("error",
                JStr (Joi.dquote ++ "repository" ++ Joi.dquote
                        ++ " is required")) ] |} |}.
Proof.
  apply (webhook_without_repository [("invalid", JStr "data")]).
  reflexivity.
Defined.



(** X14. Whatever the event loop delivers, the credential check is issued
    once and never again, and the requests accepted are all those that
    arrived while the process was up: all of them when it has not exited,
    and no more than arrived when it has. *)
Theorem accepted_at_most_requests (evs : list event) :
  issued (run_events evs) = [GetUser] /\
  match exited (run_events evs) with
  | None => accepted (run_events evs) = requests evs
  | Some _ => (accepted (run_events evs) <= requests evs)%nat
  end.
Proof.
  destruct (events_shape evs) as [[n ->]|(n & r & later & ->)].
  - rewrite run_requests, requests_repeat. simpl. auto.
  - destruct (settled_outcome n r later) as (Hi & Hx & Ha).
    rewrite Hi, Hx, Ha, requests_app, requests_repeat.
    change (requests (Settled r :: later)) with (requests later).
    split; [reflexivity|]. destruct (unauthorized r); lia.
Qed.
